(** * Istio operator: cluster discovery, override merging, reconciliation

    A shallow embedding of
      - [internal/clusterconfig/clusterconfig.go] (cluster size, flavour and
        provider discovery, override merging),
      - the Istio resources reconciler ([ResourcesReconciler.Reconcile],
        [getResources]),
      - the two-phase sidecar restart announced in the release notes,
    followed by the properties of the specification that concern them.

    Conventions.  A Go function returning [(v, err)] is a Rocq function
    returning a pair whose second component is an [option error] ([None] is
    [nil]).  The [client.Client] handle is the cluster as seen through the
    client: read-only calls are functions of it, mutating calls return the
    cluster they leave behind. *)

From Stdlib Require Import QArith Lqa.
From Stdlib.Strings Require Import Ascii String Byte.
From stdpp Require Import gmap strings pretty list fin_maps.

Local Open Scope string_scope.
Local Open Scope list_scope.

(** Go's [error] interface, identified with the message of [Error()]. *)
Inductive error := errorString (msg : string).

(** * k8s.io/apimachinery/pkg/api/resource *)

Module resource.

(** A [resource.Quantity] is an exact decimal number; [Add] and [Cmp] are
    exact, so a quantity is modelled by its rational value. *)
Abbreviation Quantity := Q.

Definition Scale := Z.
Definition Giga : Scale := 9%Z.

Definition zero : Quantity := 0%Q.

(** [NewQuantity(value, format)]: the quantity [value]. *)
Definition NewQuantity (value : Z) : Quantity := inject_Z value.

(** [NewScaledQuantity(value, scale)]: the quantity [value * 10^scale]. *)
Definition NewScaledQuantity (value : Z) (scale : Scale) : Quantity :=
  (inject_Z value * Qpower 10 scale)%Q.

Definition Add (q y : Quantity) : Quantity := (q + y)%Q.

(** [q.Cmp(y)]: -1, 0 or 1. *)
Definition Cmp (q y : Quantity) : Z :=
  match (q ?= y)%Q with
  | Lt => (-1)%Z
  | Eq => 0%Z
  | Gt => 1%Z
  end.

(** [q.Cmp(y) == -1] *)
Definition less (q y : Quantity) : bool := bool_decide (Cmp q y = (-1)%Z).

(** The binary suffix [Gi] of a serialised quantity: [n Gi = n * 2^30]. *)
Definition Gi (n : Z) : Quantity := inject_Z (n * 2 ^ 30).

End resource.

(** * k8s.io/api/core/v1 *)

Module corev1.

Abbreviation ResourceName := string.
Definition ResourceCPU : ResourceName := "cpu".
Definition ResourceMemory : ResourceName := "memory".

Abbreviation ResourceList := (gmap string resource.Quantity).

(** [rl.Name(name, defaultFormat)]: the entry when present, a zero quantity
    otherwise; the returned pointer is never nil. *)
Definition Name (rl : ResourceList) (name : ResourceName)
  : option resource.Quantity :=
  match rl !! name with
  | Some val => Some val
  | None => Some resource.zero
  end.

Definition Cpu (rl : ResourceList) : option resource.Quantity :=
  Name rl ResourceCPU.
Definition Memory (rl : ResourceList) : option resource.Quantity :=
  Name rl ResourceMemory.

Record NodeSystemInfo := {
  KubeletVersion : string;
  OSImage : string
}.

Record NodeStatus := {
  Capacity : ResourceList;
  Allocatable : ResourceList;
  NodeInfo : NodeSystemInfo
}.

Record NodeSpec := { ProviderID : string }.

Record Node := { Spec : NodeSpec; Status : NodeStatus }.

Definition NodeList := list Node.

End corev1.

(** * regexp *)

Module regexp.

(** The fragment of RE2 syntax used by the flavour patterns: literals,
    [\d] (an ASCII digit), escaped punctuation, [.] (any character but a
    newline, there is no [s] flag), the repetition [+], and the anchors [^]
    at the beginning and [$] at the end of the pattern (without the [m] flag:
    beginning and end of the text).  The text is a sequence of
    characters. *)
Inductive Expr :=
| NoMatch
| EmptyMatch
| Literal (c : ascii)
| Digit
| AnyCharNotNL
| AnyChar
| Concat (r1 r2 : Expr)
| Alternate (r1 r2 : Expr)
| Star (r : Expr).

(** [r+] *)
Definition Plus (r : Expr) : Expr := Concat r (Star r).

(** A compiled pattern. *)
Record Regexp := {
  beginText : bool;
  endText : bool;
  body : Expr
}.

Definition isDigit (c : ascii) : bool :=
  let n := nat_of_ascii c in (48 <=? n)%nat && (n <=? 57)%nat.

Definition isNewline (c : ascii) : bool := (nat_of_ascii c =? 10)%nat.

(** The characters with a meaning of their own in a pattern. *)
Definition isMeta (c : ascii) : bool :=
  existsb (Ascii.eqb c)
    ["\"; "."; "+"; "*"; "?"; "("; ")"; "|"; "["; "]"; "{"; "}"; "^"; "$"]%char.

(** The atoms of a pattern, the last one first, and whether the pattern ends
    with [$]; [None] when the pattern is outside the fragment or
    ill-formed. *)
Fixpoint parse (pattern : string) (atoms : list Expr)
  : option (list Expr * bool) :=
  match pattern with
  | EmptyString => Some (atoms, false)
  | String c rest =>
      if Ascii.eqb c "\" then
        match rest with
        | String e rest' =>
            if Ascii.eqb e "d" then parse rest' (Digit :: atoms)
            else if isMeta e then parse rest' (Literal e :: atoms)
            else None
        | EmptyString => None
        end
      else if Ascii.eqb c "." then parse rest (AnyCharNotNL :: atoms)
      else if Ascii.eqb c "+" then
        match atoms with
        | r :: atoms' => parse rest (Plus r :: atoms')
        | [] => None
        end
      else if Ascii.eqb c "$" then
        match rest with
        | EmptyString => Some (atoms, true)
        | _ => None
        end
      else if isMeta c then None
      else parse rest (Literal c :: atoms)
  end.

Definition sequence (atoms : list Expr) : Expr :=
  foldl (λ r atom, Concat atom r) EmptyMatch atoms.

(** [regexp.Compile(expr)] *)
Definition Compile (expr : string) : Regexp * option error :=
  let '(anchored, rest) :=
    match expr with
    | String c rest => if Ascii.eqb c "^" then (true, rest) else (false, expr)
    | EmptyString => (false, expr)
    end in
  match parse rest [] with
  | Some (atoms, dollar) =>
      ({| beginText := anchored; endText := dollar; body := sequence atoms |},
       None)
  | None =>
      ({| beginText := false; endText := false; body := NoMatch |},
       Some (errorString ("error parsing regexp: " +:+ expr)))
  end.

Fixpoint nullable (r : Expr) : bool :=
  match r with
  | NoMatch => false
  | EmptyMatch => true
  | Literal _ | Digit | AnyCharNotNL | AnyChar => false
  | Concat r1 r2 => nullable r1 && nullable r2
  | Alternate r1 r2 => nullable r1 || nullable r2
  | Star _ => true
  end.

(** The residual of [r] after reading [c]. *)
Fixpoint derive (c : ascii) (r : Expr) : Expr :=
  match r with
  | NoMatch | EmptyMatch => NoMatch
  | Literal c' => if Ascii.eqb c c' then EmptyMatch else NoMatch
  | Digit => if isDigit c then EmptyMatch else NoMatch
  | AnyCharNotNL => if isNewline c then NoMatch else EmptyMatch
  | AnyChar => EmptyMatch
  | Concat r1 r2 =>
      if nullable r1
      then Alternate (Concat (derive c r1) r2) (derive c r2)
      else Concat (derive c r1) r2
  | Alternate r1 r2 => Alternate (derive c r1) (derive c r2)
  | Star r' => Concat (derive c r') (Star r')
  end.

(** Whether the whole of [s] matches [r]. *)
Fixpoint matches (r : Expr) (s : string) : bool :=
  match s with
  | EmptyString => nullable r
  | String c s' => matches (derive c r) s'
  end.

(** [re.MatchString(s)]: whether [s] contains a match of the pattern; an
    anchor ties the match to an end of [s]. *)
Definition MatchString (re : Regexp) (s : string) : bool :=
  matches
    (Concat (if beginText re then EmptyMatch else Star AnyChar)
       (Concat (body re)
          (if endText re then EmptyMatch else Star AnyChar)))
    s.

End regexp.

(** * Configuration documents *)

Module document.

Local Set Warnings "-register-all".

Inductive Scalar :=
| Null
| Bool (b : bool)
| Number (n : Q)
| Str (s : string).

(** The value held by an [interface{}] of a configuration document: a scalar
    or a mapping from strings to values ([map[string]interface{}],
    [map[string]string], [map[string]bool]). *)
Inductive Value :=
| VScalar (s : Scalar)
| VMap (m : gmap string Value).

Abbreviation Document := (gmap string Value).

(** Number of mappings on the deepest path of a value. *)
Fixpoint depth (v : Value) : nat :=
  match v with
  | VScalar _ => 0
  | VMap m => S (map_fold (λ _ v' acc, depth v' `max` acc) 0 m)
  end.

End document.

(** * github.com/imdario/mergo *)

Module mergo.
Import document.

(** Modelled from the spec: the merge error of an irreconcilable type
    conflict. *)
Definition ErrTypeConflict : error :=
  errorString "cannot merge a mapping with a scalar".

Section Merge.
(** [reflect.Value.MapKeys]: the keys of a map, each once, in an order Go
    leaves unspecified. *)
Variable MapKeys : Document → list string.

(** Modelled from the spec: the merge of mergo.Merge is library code outside
    src.  Data model of the spec: the merge is override-wins (override
    document fields take precedence over base template fields at every
    depth), never fails on type-compatible branches, and merging an
    incompatible-typed branch is an error.  A branch is typed as a mapping
    or as a scalar.  [mergeEntry f k sv d] merges the entry [k := sv] of the
    override into the mapping [d], [f] merging [sv] into the value that [d]
    has at [k]. *)
Definition mergeEntry (f : Value → option Value) (k : string) (sv : Value)
    (d : Document) : option Document :=
  match d !! k with
  | None => Some (<[k := sv]> d)
  | Some dv =>
      match f dv with
      | Some r => Some (<[k := r]> d)
      | None => None
      end
  end.

(** Modelled from the spec: see [mergeEntry].  The loop over the keys of
    the override mapping [src], in the order [keys]; [children] holds, for
    each key of [src], the merge of its value into a value of the base.  A
    conflict under one key fails the whole merge. *)
Definition mergeKeys (src : Document)
    (children : gmap string (Value → option Value)) (keys : list string)
    (dst : Document) : option Document :=
  foldl
    (λ acc key,
       match acc with
       | None => None
       | Some d =>
           match src !! key, children !! key with
           | Some srcElement, Some f => mergeEntry f key srcElement d
           | _, _ => Some d
           end
       end)
    (Some dst) keys.

(** Modelled from the spec: see [mergeEntry].  [deepMerge src dst] merges
    the override [src] into [dst]; the keys of a mapping of [src] are
    visited in the order of [MapKeys]. *)
Fixpoint deepMerge (src : Value) : Value → option Value :=
  match src with
  | VScalar s =>
      λ dst,
        match dst with
        | VScalar _ => Some (VScalar s)
        | VMap _ => None
        end
  | VMap sm =>
      let children := deepMerge <$> sm in
      λ dst,
        match dst with
        | VScalar _ => None
        | VMap dm => VMap <$> mergeKeys sm children (MapKeys sm) dm
        end
  end.

(** Modelled from the spec: see [mergeEntry].
    [mergo.Merge(&dst, src, mergo.WithOverride)] on two documents. *)
Definition Merge (dst src : Document) : Document * option error :=
  match deepMerge (VMap src) (VMap dst) with
  | Some (VMap m) => (m, None)
  | _ => (dst, Some ErrTypeConflict)
  end.

End Merge.

(** What makes a function a possible [MapKeys]. *)
Definition MapKeysOrder (MapKeys : Document → list string) : Prop :=
  ∀ m, NoDup (MapKeys m) ∧ ∀ k, k ∈ MapKeys m ↔ is_Some (m !! k).

(** Two iteration orders: the enumeration of the map, and its reverse. *)
Definition keysInOrder (m : Document) : list string := (map_to_list m).*1.
Definition keysReversed (m : Document) : list string :=
  reverse (keysInOrder m).

End mergo.

(** * Package clusterconfig *)

Module clusterconfig.
Import corev1.

Definition ProductionClusterCpuThreshold : Z := 5.
Definition ProductionClusterMemoryThresholdGi : Z := 10.

Inductive ClusterSize := UnknownSize | Evaluation | Production.

Definition ClusterSize_String (s : ClusterSize) : string :=
  match s with
  | Evaluation => "Evaluation"
  | Production => "Production"
  | _ => "Unknown"
  end.

Inductive ClusterFlavour := Unknown | k3d | GKE | Gardener.

Definition ClusterFlavour_String (c : ClusterFlavour) : string :=
  match c with
  | k3d => "k3d"
  | GKE => "GKE"
  | Gardener => "Gardener"
  | Unknown => "Unknown"
  end.

Global Instance ClusterSize_eq_dec : EqDecision ClusterSize.
Proof. solve_decision. Defined.
Global Instance ClusterFlavour_eq_dec : EqDecision ClusterFlavour.
Proof. solve_decision. Defined.

(** [strings.HasPrefix(s, prefix)]. *)
Definition HasPrefix (s prefix : string) : bool := String.prefix prefix s.

(** One iteration of the loop of [EvaluateClusterSize]: the accumulators
    are [cpuCapacity] and [memoryCapacity]. *)
Definition addNodeCapacity (acc : resource.Quantity * resource.Quantity)
    (node : Node) : resource.Quantity * resource.Quantity :=
  let '(cpuCapacity, memoryCapacity) := acc in
  let nodeCpuCap := Cpu (Capacity (Status node)) in
  let cpuCapacity :=
    match nodeCpuCap with
    | Some q => resource.Add cpuCapacity q
    | None => cpuCapacity
    end in
  let nodeMemoryCap := Memory (Capacity (Status node)) in
  let memoryCapacity :=
    match nodeMemoryCap with
    | Some q => resource.Add memoryCapacity q
    | None => memoryCapacity
    end in
  (cpuCapacity, memoryCapacity).

Section Client.
(** The cluster behind [k8sClient], and the outcome of
    [k8sClient.List(ctx, &nodeList)] on it. *)
Context {Cluster : Type}.
Variable List : Cluster → error + NodeList.

Definition EvaluateClusterSize (k8sClient : Cluster)
  : ClusterSize * option error :=
  match List k8sClient with
  | inl err => (UnknownSize, Some err)
  | inr nodeList =>
      let '(cpuCapacity, memoryCapacity) :=
        foldl addNodeCapacity (resource.zero, resource.zero) nodeList in
      if bool_decide
           (resource.Cmp cpuCapacity
              (resource.NewQuantity ProductionClusterCpuThreshold) = (-1)%Z)
         || bool_decide
              (resource.Cmp memoryCapacity
                 (resource.NewScaledQuantity
                    ProductionClusterMemoryThresholdGi resource.Giga)
               = (-1)%Z)
      then (Evaluation, None)
      else (Production, None)
  end.

(** [GetClusterProvider]: the hyperscaler, guessed from the first node.  The
    line logged on an empty node list is not part of what is returned and is
    left out. *)
Definition GetClusterProvider (k8sclient : Cluster)
  : string * option error :=
  match List k8sclient with
  | inl err => ("", Some err)
  | inr nodes =>
      match nodes with
      | [] => ("other", None)
      | n :: _ =>
          let provider := ProviderID (Spec n) in
          if HasPrefix provider "aws://" then ("aws", None)
          else ("other", None)
      end
  end.

(** The body of the loop of [DiscoverClusterFlavour] on one node: [Some] is
    a [return] from inside the loop, [None] the next iteration. *)
Definition matchNode (matcherGKE matcherk3d matcherGardener : regexp.Regexp)
    (node : Node) : option ClusterFlavour :=
  if regexp.MatchString matcherGKE (KubeletVersion (NodeInfo (Status node)))
  then Some GKE
  else if regexp.MatchString matcherk3d
            (KubeletVersion (NodeInfo (Status node)))
  then Some k3d
  else if regexp.MatchString matcherGardener
            (OSImage (NodeInfo (Status node)))
  then Some Gardener
  else None.

(** [for _, node := range nodeList.Items { ... }; return Unknown, nil] *)
Fixpoint discoverLoop (matcherGKE matcherk3d matcherGardener : regexp.Regexp)
    (items : list Node) : ClusterFlavour :=
  match items with
  | [] => Unknown
  | node :: rest =>
      match matchNode matcherGKE matcherk3d matcherGardener node with
      | Some flavour => flavour
      | None => discoverLoop matcherGKE matcherk3d matcherGardener rest
      end
  end.

Definition DiscoverClusterFlavour (k8sClient : Cluster)
  : ClusterFlavour * option error :=
  match regexp.Compile "^v\d+\.\d+\.\d+-gke\.\d+$" with
  | (_, Some err) => (Unknown, Some err)
  | (matcherGKE, None) =>
  match regexp.Compile "^v\d+\.\d+\.\d+\+k3s\d+$" with
  | (_, Some err) => (Unknown, Some err)
  | (matcherk3d, None) =>
  match regexp.Compile "^Garden Linux \d+.\d+$" with
  | (_, Some err) => (Unknown, Some err)
  | (matcherGardener, None) =>
  match List k8sClient with
  | inl err => (Unknown, Some err)
  | inr nodeList =>
      (discoverLoop matcherGKE matcherk3d matcherGardener nodeList, None)
  end end end end.

End Client.

Import document.

Abbreviation ClusterConfiguration := (gmap string Value).

Definition clusterConfiguration (c : ClusterFlavour)
  : ClusterConfiguration * option error :=
  match c with
  | k3d =>
      let config : ClusterConfiguration :=
        {[ "spec" := VMap
           {[ "values" := VMap
              {[ "cni" := VMap (list_to_map
                 [ ("cniBinDir", VScalar (Str "/bin"));
                   ("cniConfDir",
                    VScalar (Str "/var/lib/rancher/k3s/agent/etc/cni/net.d"))
                 ]) ]} ]} ]} in
      (config, None)
  | GKE =>
      let config : ClusterConfiguration :=
        {[ "spec" := VMap
           {[ "values" := VMap
              {[ "cni" := VMap (list_to_map
                 [ ("cniBinDir", VScalar (Str "/home/kubernetes/bin"));
                   ("resourceQuotas",
                    VMap {[ "enabled" := VScalar (Bool true) ]})
                 ]) ]} ]} ]} in
      (config, None)
  | Gardener => (∅, None)
  | Unknown => (∅, None)
  end.

Section ClusterConfiguration.
Context {Cluster : Type}.
Variable List : Cluster → error + NodeList.

Definition EvaluateClusterConfiguration (k8sClient : Cluster)
  : ClusterConfiguration * option error :=
  match DiscoverClusterFlavour List k8sClient with
  | (_, Some err) => (∅, Some err)
  | (flavour, None) => clusterConfiguration flavour
  end.

End ClusterConfiguration.

Section MergeOverrides.
(** [sigs.k8s.io/yaml]: parsing a document into a
    [map[string]interface{}] and printing one; and the iteration order of Go
    maps during the merge. *)
Variable Unmarshal : list byte → Document * option error.
Variable Marshal : Document → list byte * option error.
Variable MapKeys : Document → list string.

Definition MergeOverrides (template : list byte)
    (overrides : ClusterConfiguration) : list byte * option error :=
  match Unmarshal template with
  | (_, Some err) => ([], Some err)
  | (templateMap, None) =>
      match mergo.Merge MapKeys templateMap overrides with
      | (_, Some err) => ([], Some err)
      | (templateMap, None) => Marshal templateMap
      end
  end.

End MergeOverrides.

(** Modelled from the spec: the provider names compared by [getResources]
    are constants of this package declared outside src; the providers of the
    spec's cluster profile are aws, openstack and other. *)
Definition Aws : string := "aws".
(** Modelled from the spec: see [Aws]. *)
Definition Openstack : string := "openstack".

End clusterconfig.

(** * Package describederrors *)

Module describederrors.

(** Modelled from the spec: the type is declared outside src.  A described
    error is the underlying cause together with a description. *)
Record DescribedError := NewDescribedError {
  cause : error;
  description : string
}.

End describederrors.

(** * Package istioresources *)

Module istioresources.
Import describederrors.

(** The fields of [v1alpha2.Istio] read by the reconciler. *)
Record Istio := {
  Istio_APIVersion : string;
  Istio_Kind : string;
  Istio_Name : string;
  Istio_UID : string
}.

Record OwnerReference := {
  APIVersion : string;
  Kind : string;
  OwnerName : string;
  UID : string
}.

(** The [metav1.OwnerReference] literal built by [Reconcile]. *)
Definition ownerOf (istioCR : Istio) : OwnerReference :=
  {| APIVersion := Istio_APIVersion istioCR;
     Kind := Istio_Kind istioCR;
     OwnerName := Istio_Name istioCR;
     UID := Istio_UID istioCR |}.

(** [controllerutil.OperationResult] is a string type. *)
Definition OperationResult := string.

(** A call of [ctrl.Log.Info] or [ctrl.Log.Error]. *)
Inductive LogEntry :=
| Info (msg : string) (keysAndValues : list (string * string))
| Error (err : error) (msg : string).

Section Reconciler.
Context {Cluster : Type}.

(** The [Resource] interface. *)
Record Resource := {
  Name : string;
  reconcile : OwnerReference → gmap string string → Cluster →
              (OperationResult * option error) * Cluster
}.

(** What a run has done so far: the cluster it leaves and the log lines it
    wrote, oldest first. *)
Record World := {
  cluster : Cluster;
  logs : list LogEntry
}.

Definition M (A : Type) : Type := World → A * World.

Definition ret {A} (a : A) : M A := λ w, (a, w).
Definition bind {A B} (m : M A) (k : A → M B) : M B :=
  λ w, let '(a, w') := m w in k a w'.

Definition log (e : LogEntry) : M unit :=
  λ w, (tt, {| cluster := cluster w; logs := logs w ++ [e] |}).

(** A read of the cluster. *)
Definition query {A} (f : Cluster → A) : M A := λ w, (f (cluster w), w).

(** A call that may change the cluster. *)
Definition call {A} (f : Cluster → A * Cluster) : M A :=
  λ w, let '(a, c) := f (cluster w) in (a, {| cluster := c; logs := logs w |}).

Notation "'do' x <- m ; k" := (bind m (λ x, k))
  (at level 10, x pattern, m at level 100, k at level 200).
Notation "m ;; k" := (bind m (λ _, k))
  (at level 100, k at level 200, right associativity).

(** [k8sClient.List] on nodes, [clusterconfig.ShouldUseNLB] (declared
    outside src) and the two resource constructors (declared outside src;
    the client they capture is the cluster threaded through [M]). *)
Variable List : Cluster → error + corev1.NodeList.
Variable ShouldUseNLB : Cluster → bool * option error.
Variable NewPeerAuthenticationMtls : Resource.
Variable NewProxyProtocolEnvoyFilter : bool → Resource.

Record ResourcesReconciler := { templateValues : gmap string string }.

Definition NewReconciler : ResourcesReconciler := {| templateValues := ∅ |}.

(** [getResources] returns all Istio resources required for the
    reconciliation specific for the given hyperscaler. *)
Definition getResources (k8sClient : Cluster) (provider : string)
  : list Resource * option error :=
  let istioResources := [NewPeerAuthenticationMtls] in
  if String.eqb provider clusterconfig.Aws then
    match ShouldUseNLB k8sClient with
    | (_, Some err) => ([], Some err)
    | (shouldUseNLB, None) =>
        (istioResources ++ [NewProxyProtocolEnvoyFilter shouldUseNLB], None)
    end
  else if String.eqb provider clusterconfig.Openstack then
    (istioResources ++ [NewProxyProtocolEnvoyFilter false], None)
  else (istioResources, None).

(** The loop of [Reconcile] over [resources]; [Some] is the [return] from
    inside the loop. *)
Fixpoint reconcileResources (resources : list Resource)
    (owner : OwnerReference) (templateValues : gmap string string)
  : M (option DescribedError) :=
  match resources with
  | [] => ret None
  | resource :: rest =>
      log (Info "Reconciling Istio resource" [("name", Name resource)]) ;;
      do (result, reconcileErr) <-
        call (reconcile resource owner templateValues) ;
      match reconcileErr with
      | Some e =>
          ret (Some (NewDescribedError e
                 ("Could not reconcile Istio resource " +:+ Name resource)))
      | None =>
          log (Info "Reconciled Istio resource"
                 [("name", Name resource); ("result", result)]) ;;
          reconcileResources rest owner templateValues
      end
  end.

Definition Reconcile (r : ResourcesReconciler) (istioCR : Istio)
  : M (option DescribedError) :=
  log (Info "Reconciling Istio resources" []) ;;
  do (provider, err) <- query (clusterconfig.GetClusterProvider List) ;
  match err with
  | Some err =>
      ret (Some (NewDescribedError err "could not determine cluster provider"))
  | None =>
      do (resources, err) <- query (λ c, getResources c provider) ;
      match err with
      | Some err =>
          log (Error err "Failed to initialise Istio resources") ;;
          ret (Some (NewDescribedError err
                 "Istio controller failed to initialise Istio resources"))
      | None =>
          let owner := ownerOf istioCR in
          do failed <- reconcileResources resources owner (templateValues r) ;
          match failed with
          | Some e => ret (Some e)
          | None =>
              log (Info "Successfully reconciled Istio resources" []) ;;
              ret None
          end
      end
  end.

(** The names of the resources whose reconcile step was started, read off
    the log. *)
Definition attempted (l : list LogEntry) : list string :=
  omap (λ e,
          match e with
          | Info msg [(_, name)] =>
              if String.eqb msg "Reconciling Istio resource"
              then Some name else None
          | _ => None
          end) l.

(** Running the reconcile steps of [resources] in sequence when none of them
    fails: the cluster they leave. *)
Fixpoint applyAll (resources : list Resource) (owner : OwnerReference)
    (templateValues : gmap string string) (c : Cluster) : option Cluster :=
  match resources with
  | [] => Some c
  | resource :: rest =>
      match reconcile resource owner templateValues c with
      | ((_, None), c') => applyAll rest owner templateValues c'
      | ((_, Some _), _) => None
      end
  end.

End Reconciler.

End istioresources.

(** * Sidecar restart *)

Module restart.

(** Modelled from the spec: the restarter is not in src (only its release
    note is).  The two phases of a run. *)
Inductive Phase := KymaWorkloads | CustomerWorkloads.

(** Modelled from the spec: the status surfaced on the owning custom
    resource. *)
Inductive ReconciliationStatus := Processing | Ready | Error | Warning.

(** Modelled from the spec: the states of the orchestrator. *)
Inductive State :=
| Idle
| RestartingPlatformWorkloads
| RestartingCustomerWorkloads (chunk : nat)
| Done
| PlatformRestartFailed
| CustomerRestartDegraded.

(** Modelled from the spec: a workload identifier. *)
Definition WorkloadRef := string.

(** Modelled from the spec: the outcome of [RunRestart]. *)
Inductive RestartOutcome :=
| OutcomeReady
| OutcomeError (reason : error)
| OutcomeWarning (failedWorkloads : list WorkloadRef).

(** Modelled from the spec: the status an outcome sets. *)
Definition statusOf (o : RestartOutcome) : ReconciliationStatus :=
  match o with
  | OutcomeReady => Ready
  | OutcomeError _ => Error
  | OutcomeWarning _ => Warning
  end.

(** Modelled from the spec: a call of one of the two consumed capabilities,
    tagged with the phase that issued it. *)
Inductive Call :=
| ListWorkloadsCall (p : Phase)
| RestartWorkloadCall (p : Phase) (ref : WorkloadRef).

(** Modelled from the spec: partition into fixed-size chunks, in order; a
    chunk holds at least one workload. *)
Fixpoint chunked {A} (size : nat) (l : list A) (fuel : nat)
  : list (list A) :=
  match fuel with
  | O => []
  | S fuel' =>
      match l with
      | [] => []
      | _ => take size l :: chunked size (drop size l) fuel'
      end
  end.

(** Modelled from the spec: see [chunked]. *)
Definition chunks {A} (chunkSize : nat) (l : list A) : list (list A) :=
  chunked (Nat.max 1 chunkSize) l (length l).

Section Orchestrator.
Context {Cluster : Type}.

(** The capabilities consumed from the cluster API: [ListWorkloads] with the
    selector of a phase, and [RestartWorkload]. *)
Variable ListWorkloads : Phase → Cluster → error + list WorkloadRef.
Variable RestartWorkload : WorkloadRef → Cluster → option error * Cluster.
Variable chunkSize : nat.

(** The cluster a run has reached and the calls it has issued, oldest
    first. *)
Record World := {
  cluster : Cluster;
  calls : list Call
}.

(** Modelled from the spec: [ListWorkloads], recorded. *)
Definition listWorkloads (p : Phase) (w : World)
  : (error + list WorkloadRef) * World :=
  (ListWorkloads p (cluster w),
   {| cluster := cluster w; calls := calls w ++ [ListWorkloadsCall p] |}).

(** Modelled from the spec: [RestartWorkload], recorded. *)
Definition restartWorkload (p : Phase) (ref : WorkloadRef) (w : World)
  : option error * World :=
  let '(err, c) := RestartWorkload ref (cluster w) in
  (err, {| cluster := c; calls := calls w ++ [RestartWorkloadCall p ref] |}).

(** Modelled from the spec: phase 1 restarts each platform workload; any
    failed restart fails the phase and stops it. *)
Fixpoint restartPlatformWorkloads (targets : list WorkloadRef) (w : World)
  : option error * World :=
  match targets with
  | [] => (None, w)
  | ref :: rest =>
      match restartWorkload KymaWorkloads ref w with
      | (Some err, w') => (Some err, w')
      | (None, w') => restartPlatformWorkloads rest w'
      end
  end.

(** Restarting [targets] in sequence when no restart fails: the cluster
    that is reached. *)
Fixpoint restartAll (targets : list WorkloadRef) (c : Cluster)
  : option Cluster :=
  match targets with
  | [] => Some c
  | ref :: rest =>
      match RestartWorkload ref c with
      | (None, c') => restartAll rest c'
      | (Some _, _) => None
      end
  end.

(** Modelled from the spec: phase 1, enumeration included. *)
Definition phase1 (w : World) : option error * World :=
  match listWorkloads KymaWorkloads w with
  | (inl err, w') => (Some err, w')
  | (inr targets, w') => restartPlatformWorkloads targets w'
  end.

(** Modelled from the spec: within a chunk every workload is restarted; a
    failure is recorded and the run goes on with the next workload. *)
Fixpoint restartChunk (chunk : list WorkloadRef)
    (failures : list (WorkloadRef * error)) (w : World)
  : list (WorkloadRef * error) * World :=
  match chunk with
  | [] => (failures, w)
  | ref :: rest =>
      match restartWorkload CustomerWorkloads ref w with
      | (Some err, w') => restartChunk rest (failures ++ [(ref, err)]) w'
      | (None, w') => restartChunk rest failures w'
      end
  end.

(** Modelled from the spec: the chunks are processed strictly in
    sequence. *)
Fixpoint restartChunks (todo : list (list WorkloadRef))
    (failures : list (WorkloadRef * error)) (w : World)
  : list (WorkloadRef * error) * World :=
  match todo with
  | [] => (failures, w)
  | chunk :: rest =>
      let '(failures', w') := restartChunk chunk failures w in
      restartChunks rest failures' w'
  end.

(** Modelled from the spec: phase 2.  The spec does not say what a failed
    enumeration does in this phase; as any failure of the phase it degrades
    the run, with no workload to name. *)
Definition phase2 (w : World) : list (WorkloadRef * error) * bool * World :=
  match listWorkloads CustomerWorkloads w with
  | (inl err, w') => ([], false, w')
  | (inr targets, w') =>
      let '(failures, w'') :=
        restartChunks (chunks chunkSize targets) [] w' in
      (failures, true, w'')
  end.

(** Modelled from the spec: one restart run, from [Idle] to the state it
    ends in. *)
Definition RunRestart (c : Cluster) : State * RestartOutcome * World :=
  let w := {| cluster := c; calls := [] |} in
  match phase1 w with
  | (Some err, w') => (PlatformRestartFailed, OutcomeError err, w')
  | (None, w') =>
      match phase2 w' with
      | ([], true, w'') => (Done, OutcomeReady, w'')
      | (failures, _, w'') =>
          (CustomerRestartDegraded, OutcomeWarning failures.*1, w'')
      end
  end.

End Orchestrator.

End restart.

(** * Reference notions and sample clusters *)

Module samples.
Import corev1 clusterconfig.

(** A node list is its own cluster: the listing succeeds with it. *)
Definition listed (nodes : NodeList) : error + NodeList := inr nodes.
(** A cluster on which the listing fails. *)
Definition unreachable : error + NodeList :=
  inl (errorString "connection refused").
(** [k8sClient.List] on such clusters. *)
Definition List (c : error + NodeList) : error + NodeList := c.

Definition mkNode (providerID kubeletVersion osImage : string)
    (capacity allocatable : ResourceList) : Node :=
  {| Spec := {| ProviderID := providerID |};
     Status := {| Capacity := capacity;
                  Allocatable := allocatable;
                  NodeInfo := {| KubeletVersion := kubeletVersion;
                                 OSImage := osImage |} |} |}.

Definition resources (cpu memory : resource.Quantity) : ResourceList :=
  <[ResourceCPU := cpu]> {[ ResourceMemory := memory ]}.

(** 2 CPU / 4Gi. *)
Definition smallNode : Node :=
  mkNode "aws:///eu-west-1a/i-0a1b2c" "v1.26.5" "Ubuntu 22.04.2 LTS"
    (resources 2%Q (resource.Gi 4)) (resources 2%Q (resource.Gi 4)).

(** Capacity 6 CPU / 12Gi, of which 4 CPU / 8Gi are allocatable. *)
Definition reservedNode : Node :=
  mkNode "aws:///eu-west-1a/i-0d4e5f" "v1.26.5" "Ubuntu 22.04.2 LTS"
    (resources 6%Q (resource.Gi 12)) (resources 4%Q (resource.Gi 8)).

(** 5 CPU and 10G (ten times 10^9 bytes) of memory, all allocatable. *)
Definition decimalNode : Node :=
  mkNode "" "v1.26.5" "Ubuntu 22.04.2 LTS"
    (resources 5%Q 10000000000%Q) (resources 5%Q 10000000000%Q).

Definition gkeNode : Node :=
  mkNode "gce://project/zone/node-1" "v1.27.3-gke.100"
    "Container-Optimized OS from Google" ∅ ∅.
Definition k3sNode : Node :=
  mkNode "k3s://k3d-kyma-server-0" "v1.26.6+k3s1" "K3s dev" ∅ ∅.
Definition gardenNode : Node :=
  mkNode "openstack:///1a2b3c" "v1.26.5" "Garden Linux 934.8" ∅ ∅.
(** A GKE kubelet on a Garden Linux image. *)
Definition gkeGardenNode : Node :=
  mkNode "" "v1.27.3-gke.100" "Garden Linux 934.8" ∅ ∅.
Definition plainNode : Node :=
  mkNode "" "v1.26.5" "Ubuntu 22.04.2 LTS" ∅ ∅.

End samples.

Module reconciler_samples.
Import istioresources.

(** A cluster reduced to what the reconciler touches: the node listing, the
    answer to the load-balancer question, and the names of the objects
    applied so far. *)
Record Cluster := {
  nodes : error + corev1.NodeList;
  nlb : bool * option error;
  applied : list string
}.

(** A resource whose reconcile step creates an object of its name. *)
Definition applies (name : string) : Resource (Cluster := Cluster) :=
  {| Name := name;
     reconcile := λ _ _ c,
       (("created", None),
        {| nodes := nodes c; nlb := nlb c; applied := applied c ++ [name] |})
  |}.

(** A resource whose reconcile step is refused by the API server. *)
Definition refused (name : string) : Resource (Cluster := Cluster) :=
  {| Name := name;
     reconcile := λ _ _ c, (("unchanged", Some (errorString "forbidden")), c)
  |}.

Definition awsCluster : Cluster :=
  {| nodes := inr [samples.smallNode]; nlb := (true, None); applied := [] |}.

(** An AWS cluster on which the load-balancer question cannot be
    answered. *)
Definition awsClusterNoAnswer : Cluster :=
  {| nodes := inr [samples.smallNode];
     nlb := (false, Some (errorString "configmaps is forbidden"));
     applied := [] |}.

Definition istioCR : Istio :=
  {| Istio_APIVersion := "operator.kyma-project.io/v1alpha2";
     Istio_Kind := "Istio";
     Istio_Name := "default";
     Istio_UID := "6f1e2d3c" |}.

Definition start (c : Cluster) : World :=
  {| cluster := c; logs := [] |}.

End reconciler_samples.

Module restart_samples.
Import restart.

(** A cluster reduced to the workloads restarted so far. *)
Definition Cluster := list WorkloadRef.

Definition ListWorkloads (p : Phase) (c : Cluster)
  : error + list WorkloadRef :=
  match p with
  | KymaWorkloads =>
      inr ["kyma-system/eventing-manager"; "kyma-system/api-gateway";
           "kyma-system/telemetry-manager"]
  | CustomerWorkloads =>
      inr ["default/httpbin"; "shop/cart"; "shop/orders"]
  end.

(** The API gateway cannot be restarted; every other workload can. *)
Definition RestartWorkload (ref : WorkloadRef) (c : Cluster)
  : option error * Cluster :=
  if String.eqb ref "kyma-system/api-gateway"
  then (Some (errorString "deployment is paused"), c)
  else (None, c ++ [ref]).

(** Every platform workload can be restarted; among the customer workloads
    the cart cannot. *)
Definition RestartWorkload' (ref : WorkloadRef) (c : Cluster)
  : option error * Cluster :=
  if String.eqb ref "shop/cart"
  then (Some (errorString "admission webhook denied the request"), c)
  else (None, c ++ [ref]).

End restart_samples.

Module merge_samples.
Import document.

Definition newline : string := String (ascii_of_nat 10) EmptyString.

(** A base template, as a document and as the text it is read from. *)
Definition templateMap : Document :=
  {[ "spec" := VMap
     {[ "values" := VMap (list_to_map
        [ ("cni", VMap {[ "cniBinDir" := VScalar (Str "/opt/cni/bin") ]});
          ("pilot", VMap {[ "enabled" := VScalar (Bool true) ]}) ]) ]} ]}.

Definition templateText : string :=
  "spec:" +:+ newline +:+
  "  values:" +:+ newline +:+
  "    cni:" +:+ newline +:+
  "      cniBinDir: /opt/cni/bin" +:+ newline +:+
  "    pilot:" +:+ newline +:+
  "      enabled: true" +:+ newline.

Definition printScalar (s : Scalar) : string :=
  match s with
  | Null => "null"
  | Bool true => "true"
  | Bool false => "false"
  | Number n => pretty (Qnum n) +:+ "/" +:+ pretty (Zpos (Qden n))
  | Str s => s
  end.

Definition printEntries (indent : string)
    (entries : list (string * (string → string))) : string :=
  foldr (λ '(key, print) text,
           indent +:+ key +:+ ":" +:+ print ("  " +:+ indent) +:+ text)
    "" entries.

(** A printer of documents in block style. *)
Fixpoint printValue (v : Value) : string → string :=
  match v with
  | VScalar s => λ _, " " +:+ printScalar s +:+ newline
  | VMap m =>
      let children := printValue <$> m in
      λ indent, newline +:+ printEntries indent (map_to_list children)
  end.

Definition Marshal (d : Document) : list byte * option error :=
  (list_byte_of_string (printEntries "" (map_to_list (printValue <$> d))),
   None).

(** The template merged with the overrides of the k3d flavour. *)
Definition mergedMap : Document :=
  (mergo.Merge mergo.keysInOrder templateMap
     (clusterconfig.clusterConfiguration clusterconfig.k3d).1).1.

(** A parser that knows the two texts above. *)
Definition Unmarshal (data : list byte) : Document * option error :=
  let text := string_of_list_byte data in
  if String.eqb text templateText then (templateMap, None)
  else if String.eqb text (string_of_list_byte (Marshal mergedMap).1)
  then (mergedMap, None)
  else (∅, Some (errorString "yaml: unknown document")).

Definition template : list byte := list_byte_of_string templateText.

End merge_samples.

Module reference.
Import corev1 clusterconfig.

(** The quantity a resource list holds under a name, zero when absent. *)
Definition quantityOf (name : ResourceName) (rl : ResourceList)
  : resource.Quantity :=
  default resource.zero (rl !! name).

(** The sum over a node list of the capacity, or of the allocatable amount,
    under a resource name. *)
Definition capacityTotal (name : ResourceName) (nodes : NodeList)
  : resource.Quantity :=
  foldl Qplus 0%Q ((λ n, quantityOf name (Capacity (Status n))) <$> nodes).

Definition allocatableTotal (name : ResourceName) (nodes : NodeList)
  : resource.Quantity :=
  foldl Qplus 0%Q ((λ n, quantityOf name (Allocatable (Status n))) <$> nodes).

(** The size classification in the words of the specification: allocatable
    totals against 5 cores and 10Gi. *)
Definition sizeByAllocatable (nodes : NodeList) : ClusterSize :=
  if resource.less (allocatableTotal ResourceCPU nodes) 5%Q
     || resource.less (allocatableTotal ResourceMemory nodes) (resource.Gi 10)
  then Evaluation else Production.

(** The three patterns of [DiscoverClusterFlavour], compiled. *)
Definition matcherGKE : regexp.Regexp :=
  (regexp.Compile "^v\d+\.\d+\.\d+-gke\.\d+$").1.
Definition matcherk3d : regexp.Regexp :=
  (regexp.Compile "^v\d+\.\d+\.\d+\+k3s\d+$").1.
Definition matcherGardener : regexp.Regexp :=
  (regexp.Compile "^Garden Linux \d+.\d+$").1.

(** The flavour of a node by itself: the first of the three patterns it
    matches. *)
Definition flavourOf (node : Node) : option ClusterFlavour :=
  matchNode matcherGKE matcherk3d matcherGardener node.

(** The flavour of the first node, in listing order, that matches a
    pattern. *)
Definition firstMatch (nodes : NodeList) : ClusterFlavour :=
  default Unknown (head (omap flavourOf nodes)).

(** The calls phase 1 of a restart run may issue. *)
Definition platformCall (call : restart.Call) : Prop :=
  match call with
  | restart.ListWorkloadsCall restart.KymaWorkloads => True
  | restart.RestartWorkloadCall restart.KymaWorkloads _ => True
  | _ => False
  end.

(** What a merge of the mapping [src] into the mapping [dst] leaves under
    the key [k], when [g] merges the values under a common key: the entry of
    [dst] when [src] has none, the entry of [src] when [dst] has none, and
    the merge of the two otherwise; [None] is a conflict. *)
Definition entryResult (g : document.Value → document.Value →
                            option document.Value)
    (src dst : document.Document) (k : string)
  : option (option document.Value) :=
  match src !! k with
  | None => Some (dst !! k)
  | Some sv =>
      match dst !! k with
      | None => Some (Some sv)
      | Some dv => Some <$> g sv dv
      end
  end.

End reference.

Module reconciler_cases.
Import reconciler_samples.

(** A cluster without nodes, and one whose nodes cannot be listed. *)
Definition emptyCluster : Cluster :=
  {| nodes := inr []; nlb := (true, None); applied := [] |}.

Definition unreachableCluster : Cluster :=
  {| nodes := inl (errorString "connection refused");
     nlb := (true, None);
     applied := [] |}.

End reconciler_cases.

(** * The language of a pattern *)

Module language.
Import regexp.

(** The strings an expression denotes. *)
Inductive lang : Expr → string → Prop :=
| lang_EmptyMatch : lang EmptyMatch ""
| lang_Literal c : lang (Literal c) (String c "")
| lang_Digit c : isDigit c = true → lang Digit (String c "")
| lang_AnyCharNotNL c : isNewline c = false → lang AnyCharNotNL (String c "")
| lang_AnyChar c : lang AnyChar (String c "")
| lang_Concat r1 r2 s1 s2 :
    lang r1 s1 → lang r2 s2 → lang (Concat r1 r2) (s1 +:+ s2)
| lang_Alternate_l r1 r2 s : lang r1 s → lang (Alternate r1 r2) s
| lang_Alternate_r r1 r2 s : lang r2 s → lang (Alternate r1 r2) s
| lang_Star_nil r : lang (Star r) ""
| lang_Star_cons r s1 s2 :
    lang r s1 → lang (Star r) s2 → lang (Star r) (s1 +:+ s2).

(** A string of digits, possibly empty; a number is a non-empty one. *)
Fixpoint allDigits (s : string) : bool :=
  match s with
  | EmptyString => true
  | String c s' => isDigit c && allDigits s'
  end.

Definition number (s : string) : bool :=
  match s with
  | EmptyString => false
  | String _ _ => allDigits s
  end.

(** Whether a character occurs in a string. *)
Fixpoint occurs (c : ascii) (s : string) : bool :=
  match s with
  | EmptyString => false
  | String c' s' => Ascii.eqb c c' || occurs c s'
  end.

(** The characters the strings of an expression are made of. *)
Fixpoint charset (r : Expr) (c : ascii) : bool :=
  match r with
  | NoMatch | EmptyMatch => false
  | Literal c' => Ascii.eqb c c'
  | Digit => isDigit c
  | AnyCharNotNL => negb (isNewline c)
  | AnyChar => true
  | Concat r1 r2 | Alternate r1 r2 => charset r1 c || charset r2 c
  | Star r' => charset r' c
  end.

(** Whether every string of an expression has to hold the character. *)
Fixpoint requires (c : ascii) (r : Expr) : bool :=
  match r with
  | Literal c' => Ascii.eqb c c'
  | Concat r1 r2 => requires c r1 || requires c r2
  | Alternate r1 r2 => requires c r1 && requires c r2
  | _ => false
  end.

(** What [MatchString] matches the whole text against. *)
Definition searched (re : Regexp) : Expr :=
  Concat (if beginText re then EmptyMatch else Star AnyChar)
    (Concat (body re) (if endText re then EmptyMatch else Star AnyChar)).

End language.

(** * Properties of package clusterconfig *)

Module clusterconfig_properties.
Import corev1 clusterconfig reference.

Lemma Cmp_lt (q y : resource.Quantity) :
  resource.Cmp q y = (-1)%Z ↔ (q < y)%Q.
Proof.
  unfold resource.Cmp. rewrite Qlt_alt.
  destruct (q ?= y)%Q; split; congruence.
Qed.

Lemma Name_quantityOf (rl : ResourceList) (name : ResourceName) :
  Name rl name = Some (quantityOf name rl).
Proof. unfold Name, quantityOf. by destruct (rl !! name). Qed.

(** The loop of [EvaluateClusterSize] computes the two capacity totals. *)
Lemma foldl_addNodeCapacity (nodes : NodeList) (cpu mem : resource.Quantity) :
  foldl addNodeCapacity (cpu, mem) nodes =
  (foldl Qplus cpu
     ((λ n, quantityOf ResourceCPU (Capacity (Status n))) <$> nodes),
   foldl Qplus mem
     ((λ n, quantityOf ResourceMemory (Capacity (Status n))) <$> nodes)).
Proof.
  revert cpu mem. induction nodes as [|node nodes IH]; intros cpu mem.
  - reflexivity.
  - cbn [foldl fmap list_fmap]. rewrite <- IH. f_equal.
    unfold addNodeCapacity, Cpu, Memory. by rewrite !Name_quantityOf.
Qed.

Lemma memory_threshold_value :
  (resource.NewScaledQuantity ProductionClusterMemoryThresholdGi resource.Giga
   == 10000000000)%Q.
Proof. vm_compute. reflexivity. Qed.

(** The exact classification computed on a successful listing: capacity
    totals against 5 and against ten times 10^9. *)
Lemma EvaluateClusterSize_exact {Cluster} (List : Cluster → error + NodeList)
    (k8sClient : Cluster) (nodes : NodeList) :
  List k8sClient = inr nodes →
  EvaluateClusterSize List k8sClient =
  (if resource.less (capacityTotal ResourceCPU nodes) 5%Q
      || resource.less (capacityTotal ResourceMemory nodes) 10000000000%Q
   then Evaluation else Production, None).
Proof.
  intros HList. unfold EvaluateClusterSize. rewrite HList.
  rewrite foldl_addNodeCapacity.
  change (foldl Qplus resource.zero
            ((λ n, quantityOf ResourceCPU (Capacity (Status n))) <$> nodes))
    with (capacityTotal ResourceCPU nodes).
  change (foldl Qplus resource.zero
            ((λ n, quantityOf ResourceMemory (Capacity (Status n))) <$> nodes))
    with (capacityTotal ResourceMemory nodes).
  assert (Hmem : bool_decide
            (resource.Cmp (capacityTotal ResourceMemory nodes)
               (resource.NewScaledQuantity ProductionClusterMemoryThresholdGi
                  resource.Giga) = (-1)%Z)
          = resource.less (capacityTotal ResourceMemory nodes) 10000000000%Q).
  { apply bool_decide_ext. rewrite !Cmp_lt, memory_threshold_value.
    reflexivity. }
  rewrite Hmem. unfold resource.less at 1.
  change (resource.NewQuantity ProductionClusterCpuThreshold) with 5%Q.
  by destruct (_ || _).
Qed.

Lemma less_lt (q y : resource.Quantity) :
  resource.less q y = true ↔ (q < y)%Q.
Proof. unfold resource.less. rewrite bool_decide_eq_true. apply Cmp_lt. Qed.

Lemma less_ge (q y : resource.Quantity) :
  resource.less q y = false ↔ (y <= q)%Q.
Proof.
  unfold resource.less. rewrite bool_decide_eq_false, Cmp_lt.
  split; [apply Qnot_lt_le | apply Qle_not_lt].
Qed.

(** C4, as stated, fails on the code: [samples.reservedNode] has 6 CPU and
    12Gi of capacity of which 4 CPU and 8Gi are allocatable, and
    [samples.decimalNode] has 5 CPU and 10G (less than 10Gi) of memory; both
    one-node clusters are classified [Production], where the allocatable
    totals against 5 cores and 10Gi give [Evaluation]. *)
Lemma EvaluateClusterSize_not_allocatable_Gi :
  (EvaluateClusterSize samples.List (samples.listed [samples.reservedNode])
     = (Production, None)
   ∧ sizeByAllocatable [samples.reservedNode] = Evaluation)
  ∧ (EvaluateClusterSize samples.List (samples.listed [samples.decimalNode])
       = (Production, None)
     ∧ sizeByAllocatable [samples.decimalNode] = Evaluation).
Proof. repeat split; vm_compute; reflexivity. Qed.

(** C4 (amended): on a successful listing [EvaluateClusterSize] sums each
    node's capacity of CPU and of memory over the whole node list; it
    returns [Evaluation] whenever the CPU total is strictly below 5 cores or
    the memory total is strictly below 10G (ten times 10^9 bytes), and
    [Production] whenever the CPU total is at least 5 cores and the memory
    total is at least 10Gi.  In particular an empty node list yields
    [Evaluation], and three nodes of 2 CPU and 4Gi each yield
    [Production]. *)
Theorem EvaluateClusterSize_capacity_thresholds {Cluster}
    (List : Cluster → error + NodeList) (k8sClient : Cluster)
    (nodes : NodeList) :
  List k8sClient = inr nodes →
  ((capacityTotal ResourceCPU nodes < 5)%Q
   ∨ (capacityTotal ResourceMemory nodes < 10000000000)%Q →
   EvaluateClusterSize List k8sClient = (Evaluation, None))
  ∧ ((5 <= capacityTotal ResourceCPU nodes)%Q
     ∧ (resource.Gi 10 <= capacityTotal ResourceMemory nodes)%Q →
     EvaluateClusterSize List k8sClient = (Production, None))
  ∧ (nodes = [] → EvaluateClusterSize List k8sClient = (Evaluation, None))
  ∧ (∀ n1 n2 n3,
       nodes = [n1; n2; n3] →
       (∀ n, n ∈ nodes →
          Capacity (Status n) !! ResourceCPU = Some 2%Q
          ∧ Capacity (Status n) !! ResourceMemory = Some (resource.Gi 4)) →
       EvaluateClusterSize List k8sClient = (Production, None)).
Proof.
  intros HList. rewrite (EvaluateClusterSize_exact List k8sClient nodes HList).
  split; [|split; [|split]].
  - intros [Hcpu | Hmem].
    + apply less_lt in Hcpu. by rewrite Hcpu.
    + apply less_lt in Hmem. rewrite Hmem. by rewrite orb_true_r.
  - intros [Hcpu Hmem].
    assert (Hmem' : (10000000000 <= capacityTotal ResourceMemory nodes)%Q).
    { eapply Qle_trans; [|exact Hmem]. vm_compute. discriminate. }
    apply less_ge in Hcpu, Hmem'. by rewrite Hcpu, Hmem'.
  - intros ->. reflexivity.
  - intros n1 n2 n3 -> Hcap.
    destruct (Hcap n1) as [Hc1 Hm1]; [by left|].
    destruct (Hcap n2) as [Hc2 Hm2]; [by right; left|].
    destruct (Hcap n3) as [Hc3 Hm3]; [by do 2 right; left|].
    unfold capacityTotal, quantityOf. cbn [fmap list_fmap foldl].
    rewrite Hc1, Hc2, Hc3, Hm1, Hm2, Hm3. reflexivity.
Qed.

Lemma EvaluateClusterSize_capacity_thresholds_witness :
  EvaluateClusterSize samples.List
    (samples.listed [samples.smallNode; samples.smallNode; samples.smallNode])
  = (Production, None).
Proof.
  pose proof (EvaluateClusterSize_capacity_thresholds samples.List
                (samples.listed
                   [samples.smallNode; samples.smallNode; samples.smallNode])
                [samples.smallNode; samples.smallNode; samples.smallNode]
                eq_refl) as (_ & HProduction & _ & _).
  apply HProduction. split; vm_compute; discriminate.
Defined.

(** C10: [EvaluateClusterSize] returns [UnknownSize] exactly when the node
    listing returns an error (which it hands back); on every successful
    listing it returns [Evaluation] or [Production] with a nil error. *)
Theorem EvaluateClusterSize_UnknownSize_iff_error {Cluster}
    (List : Cluster → error + NodeList) (k8sClient : Cluster) :
  ((EvaluateClusterSize List k8sClient).1 = UnknownSize
   ↔ ∃ err, List k8sClient = inl err)
  ∧ (∀ err, List k8sClient = inl err →
       EvaluateClusterSize List k8sClient = (UnknownSize, Some err))
  ∧ (∀ nodes, List k8sClient = inr nodes →
       EvaluateClusterSize List k8sClient = (Evaluation, None)
       ∨ EvaluateClusterSize List k8sClient = (Production, None)).
Proof.
  destruct (List k8sClient) as [err | nodes] eqn:HList.
  - unfold EvaluateClusterSize. rewrite HList. repeat split.
    + intros _. by exists err.
    + by intros err' [= <-].
    + intros nodes [=].
  - rewrite (EvaluateClusterSize_exact List k8sClient nodes HList).
    repeat split.
    + destruct (_ || _); discriminate.
    + intros [err [=]].
    + intros err [=].
    + intros nodes' _. destruct (_ || _); [by left | by right].
Qed.

Lemma EvaluateClusterSize_UnknownSize_iff_error_witness :
  EvaluateClusterSize samples.List samples.unreachable
  = (UnknownSize, Some (errorString "connection refused"))
  ∧ (EvaluateClusterSize samples.List (samples.listed [])).1 ≠ UnknownSize.
Proof.
  split.
  - exact (proj1 (proj2 (EvaluateClusterSize_UnknownSize_iff_error
                           samples.List samples.unreachable))
             (errorString "connection refused") eq_refl).
  - intros Hunknown.
    destruct (proj1 (proj1 (EvaluateClusterSize_UnknownSize_iff_error
                              samples.List (samples.listed [])))
                Hunknown) as [err Herr].
    discriminate Herr.
Defined.

(** C7: when the listing succeeds with zero items, [GetClusterProvider]
    returns the provider other and a nil error. *)
Theorem GetClusterProvider_empty_node_list {Cluster}
    (List : Cluster → error + NodeList) (k8sclient : Cluster) :
  List k8sclient = inr [] →
  GetClusterProvider List k8sclient = ("other", None).
Proof. intros HList. unfold GetClusterProvider. by rewrite HList. Qed.

Lemma GetClusterProvider_empty_node_list_witness :
  GetClusterProvider samples.List (samples.listed []) = ("other", None).
Proof.
  exact (GetClusterProvider_empty_node_list samples.List (samples.listed [])
           eq_refl).
Defined.

(** ** Flavour *)

Example matcherGKE_matches :
  regexp.MatchString matcherGKE "v1.27.3-gke.100" = true
  ∧ regexp.MatchString matcherGKE "v1.27.3-gke." = false
  ∧ regexp.MatchString matcherGKE "xv1.27.3-gke.100" = false
  ∧ regexp.MatchString matcherGKE "v1.26.6+k3s1" = false.
Proof. repeat split; reflexivity. Qed.

Example matcherk3d_matches :
  regexp.MatchString matcherk3d "v1.26.6+k3s1" = true
  ∧ regexp.MatchString matcherk3d "v1.26.6-k3s1" = false
  ∧ regexp.MatchString matcherk3d "v1.27.3-gke.100" = false.
Proof. repeat split; reflexivity. Qed.

Example matcherGardener_matches :
  regexp.MatchString matcherGardener "Garden Linux 934.8" = true
  ∧ regexp.MatchString matcherGardener "Garden Linux 934x8" = true
  ∧ regexp.MatchString matcherGardener "Garden Linux 934" = true
  ∧ regexp.MatchString matcherGardener "Garden Linux 93" = false
  ∧ regexp.MatchString matcherGardener "Ubuntu 22.04.2 LTS" = false.
Proof. repeat split; reflexivity. Qed.

(** The three patterns compile. *)
Lemma Compile_patterns :
  regexp.Compile "^v\d+\.\d+\.\d+-gke\.\d+$" = (matcherGKE, None)
  ∧ regexp.Compile "^v\d+\.\d+\.\d+\+k3s\d+$" = (matcherk3d, None)
  ∧ regexp.Compile "^Garden Linux \d+.\d+$" = (matcherGardener, None).
Proof. repeat split; reflexivity. Qed.

(** The loop returns the flavour of the first node that matches. *)
Lemma discoverLoop_firstMatch (nodes : NodeList) :
  discoverLoop matcherGKE matcherk3d matcherGardener nodes = firstMatch nodes.
Proof.
  unfold firstMatch. induction nodes as [|node nodes IH]; [done|].
  cbn [discoverLoop omap list_omap]. fold (flavourOf node).
  by destruct (flavourOf node).
Qed.

Lemma DiscoverClusterFlavour_listed {Cluster}
    (List : Cluster → error + NodeList) (k8sClient : Cluster)
    (nodes : NodeList) :
  List k8sClient = inr nodes →
  DiscoverClusterFlavour List k8sClient = (firstMatch nodes, None).
Proof.
  intros HList. unfold DiscoverClusterFlavour.
  destruct Compile_patterns as (-> & -> & ->).
  by rewrite HList, discoverLoop_firstMatch.
Qed.

Lemma head_Permutation_uniform {A} (l l' : list A) :
  l ≡ₚ l' → (∀ x y, x ∈ l → y ∈ l → x = y) → head l = head l'.
Proof.
  intros Hperm Hsame. destruct l as [|x l], l' as [|y l']; [done| | |].
  - by apply Permutation_nil_cons in Hperm.
  - symmetry in Hperm. by apply Permutation_nil_cons in Hperm.
  - cbn. f_equal. apply Hsame; [by left|].
    rewrite Hperm. by left.
Qed.

(** C5, as stated, fails on the code: the same two nodes, one with a GKE
    kubelet and one with a k3s kubelet, classify as GKE in one listing order
    and as k3d in the other (where the node matching the first pattern does
    not decide). *)
Lemma DiscoverClusterFlavour_depends_on_order :
  [samples.gkeNode; samples.k3sNode] ≡ₚ [samples.k3sNode; samples.gkeNode]
  ∧ DiscoverClusterFlavour samples.List
      (samples.listed [samples.gkeNode; samples.k3sNode]) = (GKE, None)
  ∧ DiscoverClusterFlavour samples.List
      (samples.listed [samples.k3sNode; samples.gkeNode]) = (k3d, None).
Proof. split; [apply Permutation_swap | split; reflexivity]. Qed.

(** C5 (amended): on a successful listing [DiscoverClusterFlavour] returns
    the flavour of the first node, in listing order, that matches a pattern
    ([Unknown] when none does).  Within a node pattern priority decides: a
    node whose kubelet version matches the first pattern is classified GKE
    whatever its OS image.  The flavour is the same for every permutation of
    the listing provided all the nodes that match a pattern match the same
    flavour. *)
Theorem DiscoverClusterFlavour_first_match {Cluster}
    (List : Cluster → error + NodeList) (k8sClient : Cluster)
    (nodes : NodeList) :
  List k8sClient = inr nodes →
  DiscoverClusterFlavour List k8sClient = (firstMatch nodes, None)
  ∧ (∀ node,
       regexp.MatchString matcherGKE (KubeletVersion (NodeInfo (Status node)))
         = true →
       flavourOf node = Some GKE)
  ∧ (∀ k8sClient' nodes',
       List k8sClient' = inr nodes' →
       nodes ≡ₚ nodes' →
       (∀ n1 n2 f1 f2, n1 ∈ nodes → n2 ∈ nodes →
          flavourOf n1 = Some f1 → flavourOf n2 = Some f2 → f1 = f2) →
       DiscoverClusterFlavour List k8sClient'
       = DiscoverClusterFlavour List k8sClient).
Proof.
  intros HList.
  rewrite (DiscoverClusterFlavour_listed List k8sClient nodes HList).
  split; [done|]. split.
  - intros node HGKE. unfold flavourOf, matchNode. by rewrite HGKE.
  - intros k8sClient' nodes' HList' Hperm Hsame.
    rewrite (DiscoverClusterFlavour_listed List k8sClient' nodes' HList').
    unfold firstMatch. do 2 f_equal.
    symmetry. apply head_Permutation_uniform.
    + by apply omap_Permutation.
    + intros f1 f2 (n1 & Hn1 & Hf1)%list_elem_of_omap
        (n2 & Hn2 & Hf2)%list_elem_of_omap.
      by apply (Hsame n1 n2).
Qed.

Lemma DiscoverClusterFlavour_first_match_witness :
  DiscoverClusterFlavour samples.List
    (samples.listed
       [samples.plainNode; samples.gkeGardenNode; samples.gardenNode])
  = (GKE, None).
Proof.
  exact (proj1 (DiscoverClusterFlavour_first_match samples.List
                  (samples.listed
                     [samples.plainNode; samples.gkeGardenNode;
                      samples.gardenNode])
                  [samples.plainNode; samples.gkeGardenNode;
                   samples.gardenNode]
                  eq_refl)).
Defined.

End clusterconfig_properties.

(** * Properties of package istioresources *)

Module istioresources_properties.
Import describederrors istioresources.

Section Reconciler.
Context {Cluster : Type}.
Variable List : Cluster → error + corev1.NodeList.
Variable ShouldUseNLB : Cluster → bool * option error.
Variable NewPeerAuthenticationMtls : Resource (Cluster := Cluster).
Variable NewProxyProtocolEnvoyFilter : bool → Resource (Cluster := Cluster).

Lemma attempted_app (l1 l2 : list LogEntry) :
  attempted (l1 ++ l2) = attempted l1 ++ attempted l2.
Proof. apply omap_app. Qed.

(** As long as the reconcile steps succeed, the loop walks on: after the
    resources [done] it is at the cluster they leave, and has started
    exactly them. *)
Lemma reconcileResources_succeeded (done rest : list Resource)
    (owner : OwnerReference) (templateValues : gmap string string)
    (w : World) (c : Cluster) :
  applyAll done owner templateValues (cluster w) = Some c →
  ∃ w1,
    reconcileResources (done ++ rest) owner templateValues w
    = reconcileResources rest owner templateValues w1
    ∧ cluster w1 = c
    ∧ attempted (logs w1) = attempted (logs w) ++ (Name <$> done).
Proof.
  revert w. induction done as [|resource done IH]; intros w Happly.
  - exists w. cbn in Happly. injection Happly as <-.
    by rewrite app_nil_r.
  - cbn [applyAll] in Happly.
    destruct (reconcile resource owner templateValues (cluster w))
      as [[result [e|]] c1] eqn:Hstep; [discriminate|].
    set (w1 := {| cluster := c1;
                  logs := (logs w
                           ++ [Info "Reconciling Istio resource"
                                 [("name", Name resource)]])
                          ++ [Info "Reconciled Istio resource"
                                [("name", Name resource);
                                 ("result", result)]] |}).
    destruct (IH w1 Happly) as (w2 & Hrun & Hcluster & Hlog).
    exists w2. split; [|split; [done|]].
    + rewrite <- Hrun. cbn [app reconcileResources].
      unfold bind, log, call, ret. cbn [cluster logs]. by rewrite Hstep.
    + rewrite Hlog. subst w1. cbn [logs]. rewrite !attempted_app.
      cbn. by rewrite <- !app_assoc.
Qed.

(** The loop at a resource whose reconcile step fails. *)
Lemma reconcileResources_failed (resource : Resource) (rest : list Resource)
    (owner : OwnerReference) (templateValues : gmap string string)
    (w : World) (result : OperationResult) (e : error) (c' : Cluster) :
  reconcile resource owner templateValues (cluster w)
  = ((result, Some e), c') →
  reconcileResources (resource :: rest) owner templateValues w
  = (Some (NewDescribedError e
             ("Could not reconcile Istio resource " +:+ Name resource)),
     {| cluster := c';
        logs := logs w ++ [Info "Reconciling Istio resource"
                             [("name", Name resource)]] |}).
Proof.
  intros Hstep. cbn [reconcileResources].
  unfold bind, log, call, ret. cbn [cluster logs]. by rewrite Hstep.
Qed.

(** C1: when the reconcile steps of the resources before the i-th succeed
    and the step of the i-th returns an error, the loop of [Reconcile] (and
    [Reconcile] itself, on the resources it got from [getResources]) returns
    the described error made of that error and of the name of the i-th
    resource; the cluster is left as the failed step left it, after the
    steps before it; the later resources are not started. *)
Theorem Reconcile_fails_fast (r : ResourcesReconciler) (istioCR : Istio)
    (before after : list Resource) (resource : Resource)
    (w : World) (c c' : Cluster) (result : OperationResult) (e : error) :
  let owner := ownerOf istioCR in
  let failure :=
    Some (NewDescribedError e
            ("Could not reconcile Istio resource " +:+ Name resource)) in
  applyAll before owner (templateValues r) (cluster w) = Some c →
  reconcile resource owner (templateValues r) c = ((result, Some e), c') →
  (∃ w',
     reconcileResources (before ++ resource :: after) owner
       (templateValues r) w = (failure, w')
     ∧ cluster w' = c'
     ∧ attempted (logs w')
       = attempted (logs w) ++ (Name <$> before) ++ [Name resource])
  ∧ (∀ provider,
       clusterconfig.GetClusterProvider List (cluster w) = (provider, None) →
       getResources ShouldUseNLB NewPeerAuthenticationMtls
         NewProxyProtocolEnvoyFilter (cluster w) provider
       = (before ++ resource :: after, None) →
       ∃ w',
         Reconcile List ShouldUseNLB NewPeerAuthenticationMtls
           NewProxyProtocolEnvoyFilter r istioCR w = (failure, w')
         ∧ cluster w' = c'
         ∧ attempted (logs w')
           = attempted (logs w) ++ (Name <$> before) ++ [Name resource]).
Proof.
  intros owner failure Happly Hstep.
  assert (Hloop : ∀ w0, cluster w0 = cluster w →
            ∃ w',
              reconcileResources (before ++ resource :: after) owner
                (templateValues r) w0 = (failure, w')
              ∧ cluster w' = c'
              ∧ attempted (logs w')
                = attempted (logs w0) ++ (Name <$> before) ++ [Name resource]).
  { intros w0 Hw0. rewrite <- Hw0 in Happly.
    destruct (reconcileResources_succeeded before (resource :: after)
                owner (templateValues r) w0 c Happly)
      as (w1 & Hrun & Hcluster & Hlog).
    rewrite <- Hcluster in Hstep.
    eexists. split; [|split].
    - rewrite Hrun. exact (reconcileResources_failed _ _ _ _ _ _ _ _ Hstep).
    - done.
    - cbn [logs]. rewrite attempted_app, Hlog. cbn. by rewrite <- app_assoc. }
  split; [by apply Hloop|].
  intros provider Hprovider Hresources.
  set (w0 := {| cluster := cluster w;
                logs := logs w ++ [Info "Reconciling Istio resources" []] |}).
  destruct (Hloop w0 eq_refl) as (w' & Hrun & Hcluster & Hlog).
  exists w'. split; [|split; [done|]].
  - unfold Reconcile, bind, log, query, ret. cbn [cluster logs].
    rewrite Hprovider. cbn [cluster logs]. rewrite Hresources.
    fold owner. fold w0. by rewrite Hrun.
  - rewrite Hlog. subst w0. cbn [logs]. rewrite attempted_app. cbn.
    by rewrite app_nil_r.
Qed.

(** C3 (amended): whenever [getResources] returns a nil error the peer
    authentication resource is first in the returned sequence.  For provider
    aws it asks whether the load balancer is an NLB: on an answer [b] it
    returns the peer authentication followed by the proxy-protocol filter
    built with [b], on an error it returns that error and no resource.  For
    provider openstack it returns the peer authentication followed by the
    filter built with [false]; for every other provider only the peer
    authentication. *)
Theorem getResources_by_provider (k8sClient : Cluster) (provider : string) :
  let getResources :=
    getResources ShouldUseNLB NewPeerAuthenticationMtls
      NewProxyProtocolEnvoyFilter in
  (∀ resources,
     getResources k8sClient provider = (resources, None) →
     head resources = Some NewPeerAuthenticationMtls)
  ∧ (provider = clusterconfig.Aws →
     ∀ shouldUseNLB,
       ShouldUseNLB k8sClient = (shouldUseNLB, None) →
       getResources k8sClient provider
       = ([NewPeerAuthenticationMtls;
           NewProxyProtocolEnvoyFilter shouldUseNLB], None))
  ∧ (provider = clusterconfig.Aws →
     ∀ shouldUseNLB err,
       ShouldUseNLB k8sClient = (shouldUseNLB, Some err) →
       getResources k8sClient provider = ([], Some err))
  ∧ (provider = clusterconfig.Openstack →
     getResources k8sClient provider
     = ([NewPeerAuthenticationMtls; NewProxyProtocolEnvoyFilter false], None))
  ∧ (provider ≠ clusterconfig.Aws → provider ≠ clusterconfig.Openstack →
     getResources k8sClient provider = ([NewPeerAuthenticationMtls], None)).
Proof.
  intros getRes. subst getRes. unfold getResources.
  split; [|split; [|split; [|split]]].
  - intros resources.
    destruct (String.eqb provider clusterconfig.Aws);
      [destruct (ShouldUseNLB k8sClient) as [b [err|]]|
       destruct (String.eqb provider clusterconfig.Openstack)];
      intros [= <-]; reflexivity.
  - intros -> b Hb. by rewrite Hb.
  - intros -> b err Hb. by rewrite Hb.
  - by intros ->.
  - intros HAws HOpenstack.
    apply String.eqb_neq in HAws, HOpenstack. by rewrite HAws, HOpenstack.
Qed.

(** C9: on success [GetClusterProvider] returns aws or other, never
    openstack; the case openstack of [getResources] is therefore not taken
    on a provider obtained from [GetClusterProvider], as in [Reconcile]:
    there [getResources] is its case aws or its default case. *)
Theorem GetClusterProvider_never_openstack (k8sClient : Cluster)
    (provider : string) :
  clusterconfig.GetClusterProvider List k8sClient = (provider, None) →
  (provider = "aws" ∨ provider = "other")
  ∧ provider ≠ clusterconfig.Openstack
  ∧ String.eqb provider clusterconfig.Openstack = false
  ∧ getResources ShouldUseNLB NewPeerAuthenticationMtls
      NewProxyProtocolEnvoyFilter k8sClient provider
    = (if String.eqb provider clusterconfig.Aws
       then match ShouldUseNLB k8sClient with
            | (_, Some err) => ([], Some err)
            | (shouldUseNLB, None) =>
                ([NewPeerAuthenticationMtls;
                  NewProxyProtocolEnvoyFilter shouldUseNLB], None)
            end
       else ([NewPeerAuthenticationMtls], None)).
Proof.
  unfold clusterconfig.GetClusterProvider. intros Hprovider.
  assert (Hcases : provider = "aws" ∨ provider = "other").
  { destruct (List k8sClient) as [err | [|n nodes]]; [discriminate | |].
    - injection Hprovider as <-. by right.
    - destruct (clusterconfig.HasPrefix _ _);
        injection Hprovider as <-; [by left | by right]. }
  split; [done|].
  destruct Hcases as [-> | ->]; repeat split; try discriminate; reflexivity.
Qed.

End Reconciler.

(** The second of three resources fails: the first stays applied, the third
    is not started, the error names the second. *)
Lemma Reconcile_fails_fast_witness :
  (∃ w',
     reconcileResources
       ([reconciler_samples.applies "first"]
        ++ reconciler_samples.refused "second"
           :: [reconciler_samples.applies "third"])
       (ownerOf reconciler_samples.istioCR) ∅
       (reconciler_samples.start reconciler_samples.awsCluster)
     = (Some (NewDescribedError (errorString "forbidden")
                "Could not reconcile Istio resource second"), w')
     ∧ reconciler_samples.applied (cluster w') = ["first"]
     ∧ attempted (logs w') = ["first"; "second"])
  ∧ (∃ w',
       Reconcile reconciler_samples.nodes reconciler_samples.nlb
         (reconciler_samples.applies "peer-authentication")
         (λ _, reconciler_samples.refused "proxy-protocol")
         NewReconciler reconciler_samples.istioCR
         (reconciler_samples.start reconciler_samples.awsCluster)
       = (Some (NewDescribedError (errorString "forbidden")
                  "Could not reconcile Istio resource proxy-protocol"), w')
       ∧ reconciler_samples.applied (cluster w') = ["peer-authentication"]
       ∧ attempted (logs w') = ["peer-authentication"; "proxy-protocol"]).
Proof.
  split.
  - destruct (Reconcile_fails_fast
                reconciler_samples.nodes reconciler_samples.nlb
                (reconciler_samples.applies "first")
                (λ _, reconciler_samples.refused "second")
                NewReconciler reconciler_samples.istioCR
                [reconciler_samples.applies "first"]
                [reconciler_samples.applies "third"]
                (reconciler_samples.refused "second")
                (reconciler_samples.start reconciler_samples.awsCluster)
                _ _ _ _ eq_refl eq_refl)
      as [(w' & Hrun & Hcluster & Hlog) _].
    exists w'. split; [exact Hrun|]. split; [|exact Hlog].
    rewrite Hcluster. reflexivity.
  - destruct (Reconcile_fails_fast
                reconciler_samples.nodes reconciler_samples.nlb
                (reconciler_samples.applies "peer-authentication")
                (λ _, reconciler_samples.refused "proxy-protocol")
                NewReconciler reconciler_samples.istioCR
                [reconciler_samples.applies "peer-authentication"]
                []
                (reconciler_samples.refused "proxy-protocol")
                (reconciler_samples.start reconciler_samples.awsCluster)
                _ _ _ _ eq_refl eq_refl)
      as [_ HReconcile].
    destruct (HReconcile "aws" eq_refl eq_refl)
      as (w' & Hrun & Hcluster & Hlog).
    exists w'. split; [exact Hrun|]. split; [|exact Hlog].
    rewrite Hcluster. reflexivity.
Defined.

(** C3, as stated, fails on the code: for provider aws, when the question
    whether the load balancer is an NLB is answered by an error,
    [getResources] returns no resource at all (and that error), so the peer
    authentication is not first and no filter is appended. *)
Lemma getResources_aws_without_answer :
  getResources reconciler_samples.nlb
    (reconciler_samples.applies "peer-authentication")
    (λ _, reconciler_samples.applies "proxy-protocol")
    reconciler_samples.awsClusterNoAnswer clusterconfig.Aws
  = ([], Some (errorString "configmaps is forbidden")).
Proof. reflexivity. Qed.

Lemma getResources_by_provider_witness :
  getResources reconciler_samples.nlb
    (reconciler_samples.applies "peer-authentication")
    (λ _, reconciler_samples.applies "proxy-protocol")
    reconciler_samples.awsCluster "azure"
  = ([reconciler_samples.applies "peer-authentication"], None).
Proof.
  apply (getResources_by_provider reconciler_samples.nlb
           (reconciler_samples.applies "peer-authentication")
           (λ _, reconciler_samples.applies "proxy-protocol")
           reconciler_samples.awsCluster "azure");
    discriminate.
Defined.

Lemma GetClusterProvider_never_openstack_witness :
  ("aws" = "aws" ∨ "aws" = "other") ∧ "aws" ≠ clusterconfig.Openstack.
Proof.
  pose proof (GetClusterProvider_never_openstack
                reconciler_samples.nodes reconciler_samples.nlb
                (reconciler_samples.applies "peer-authentication")
                (λ _, reconciler_samples.applies "proxy-protocol")
                reconciler_samples.awsCluster "aws" eq_refl)
    as (Hcases & Hne & _).
  exact (conj Hcases Hne).
Defined.

End istioresources_properties.

(** * Properties of the sidecar restart *)

Module restart_properties.
Import restart reference.

Example chunks_of_two :
  chunks 2 ["a"; "b"; "c"; "d"; "e"] = [["a"; "b"]; ["c"; "d"]; ["e"]].
Proof. reflexivity. Qed.

(** The chunks partition the workloads, in order. *)
Lemma chunked_concat {A} (size : nat) (l : list A) (fuel : nat) :
  (1 ≤ size)%nat → (length l ≤ fuel)%nat →
  concat (chunked size l fuel) = l.
Proof.
  intros Hsize. revert l. induction fuel as [|fuel IH]; intros l Hfuel.
  - destruct l; [done | cbn in Hfuel; lia].
  - destruct l as [|x l]; [done|].
    cbn [chunked concat]. rewrite IH.
    + apply take_drop.
    + rewrite length_drop. cbn in *. lia.
Qed.

Lemma chunks_concat {A} (chunkSize : nat) (l : list A) :
  concat (chunks chunkSize l) = l.
Proof. apply chunked_concat; lia. Qed.

(** A run whose phase 1 succeeds and whose phase 2 meets one workload that
    cannot be restarted: the other workloads are restarted and the run ends
    degraded, naming that workload. *)
Example RunRestart_degraded :
  RunRestart restart_samples.ListWorkloads restart_samples.RestartWorkload'
    2 []
  = (CustomerRestartDegraded, OutcomeWarning ["shop/cart"],
     {| cluster := ["kyma-system/eventing-manager"; "kyma-system/api-gateway";
                    "kyma-system/telemetry-manager";
                    "default/httpbin"; "shop/orders"];
        calls := [ListWorkloadsCall KymaWorkloads;
                  RestartWorkloadCall KymaWorkloads
                    "kyma-system/eventing-manager";
                  RestartWorkloadCall KymaWorkloads "kyma-system/api-gateway";
                  RestartWorkloadCall KymaWorkloads
                    "kyma-system/telemetry-manager";
                  ListWorkloadsCall CustomerWorkloads;
                  RestartWorkloadCall CustomerWorkloads "default/httpbin";
                  RestartWorkloadCall CustomerWorkloads "shop/cart";
                  RestartWorkloadCall CustomerWorkloads "shop/orders"] |}).
Proof. reflexivity. Qed.

Section Orchestrator.
Context {Cluster : Type}.
Variable ListWorkloads : Phase → Cluster → error + list WorkloadRef.
Variable RestartWorkload : WorkloadRef → Cluster → option error * Cluster.
Variable chunkSize : nat.

Lemma restartPlatformWorkloads_calls (targets : list WorkloadRef)
    (w w' : World) (r : option error) :
  restartPlatformWorkloads RestartWorkload targets w = (r, w') →
  Forall platformCall (calls w) → Forall platformCall (calls w').
Proof.
  revert w. induction targets as [|ref targets IH]; intros w Hrun Hcalls.
  - by injection Hrun as _ <-.
  - cbn [restartPlatformWorkloads] in Hrun. unfold restartWorkload in Hrun.
    destruct (RestartWorkload ref (cluster w)) as [[err|] c1].
    + injection Hrun as _ <-. cbn. apply Forall_app. split; [done|].
      by constructor.
    + apply IH in Hrun; [done|]. cbn. apply Forall_app. split; [done|].
      by constructor.
Qed.

Lemma phase1_calls (w w' : World) (r : option error) :
  phase1 ListWorkloads RestartWorkload w = (r, w') →
  Forall platformCall (calls w) → Forall platformCall (calls w').
Proof.
  unfold phase1, listWorkloads. intros Hrun Hcalls.
  assert (Hcalls' : Forall platformCall
                      (calls w ++ [ListWorkloadsCall KymaWorkloads])).
  { apply Forall_app. split; [done|]. by constructor. }
  destruct (ListWorkloads KymaWorkloads (cluster w)) as [err | targets].
  - by injection Hrun as _ <-.
  - by apply restartPlatformWorkloads_calls in Hrun.
Qed.

(** A restart that fails after the restarts before it succeeded fails the
    whole of phase 1. *)
Lemma restartPlatformWorkloads_fails (before after : list WorkloadRef)
    (ref : WorkloadRef) (w : World) (c1 c2 : Cluster) (err : error) :
  restartAll RestartWorkload before (cluster w) = Some c1 →
  RestartWorkload ref c1 = (Some err, c2) →
  ∃ w',
    restartPlatformWorkloads RestartWorkload (before ++ ref :: after) w
    = (Some err, w').
Proof.
  revert w. induction before as [|b before IH]; intros w Hbefore Href.
  - injection Hbefore as <-. cbn. unfold restartWorkload. rewrite Href.
    by eexists.
  - cbn [restartAll] in Hbefore. cbn [app restartPlatformWorkloads].
    unfold restartWorkload.
    destruct (RestartWorkload b (cluster w)) as [[e|] c'] eqn:Hb;
      [discriminate|].
    by apply IH.
Qed.

(** C2: when phase 1 of a restart run fails, because the enumeration of the
    platform workloads fails or because the restart of one of them fails,
    the run ends in [PlatformRestartFailed] with the status [Error], and it
    has issued no call of phase 2: no restart of a customer workload, and
    not even their enumeration. *)
Theorem RunRestart_platform_failure (c : Cluster) (err : error) :
  (ListWorkloads KymaWorkloads c = inl err
   ∨ ∃ before ref after c1 c2,
       ListWorkloads KymaWorkloads c = inr (before ++ ref :: after)
       ∧ restartAll RestartWorkload before c = Some c1
       ∧ RestartWorkload ref c1 = (Some err, c2)) →
  ∃ w,
    RunRestart ListWorkloads RestartWorkload chunkSize c
    = (PlatformRestartFailed, OutcomeError err, w)
    ∧ statusOf (OutcomeError err) = Error
    ∧ (∀ ref, RestartWorkloadCall CustomerWorkloads ref ∉ calls w)
    ∧ ListWorkloadsCall CustomerWorkloads ∉ calls w.
Proof.
  intros Hfails.
  set (w0 := {| cluster := c; calls := [] |}).
  assert (Hphase1 : ∃ w,
            phase1 ListWorkloads RestartWorkload w0 = (Some err, w)).
  { unfold phase1, listWorkloads. subst w0. cbn [cluster calls].
    destruct Hfails as [-> | (before & ref & after & c1 & c2 & -> & H1 & H2)].
    - by eexists.
    - by apply (restartPlatformWorkloads_fails _ _ _ _ c1 c2). }
  destruct Hphase1 as [w Hphase1]. exists w.
  assert (Hcalls : Forall platformCall (calls w)).
  { apply (phase1_calls w0 w (Some err) Hphase1). constructor. }
  rewrite Forall_forall in Hcalls.
  unfold RunRestart. fold w0. rewrite Hphase1.
  repeat split.
  - intros ref Hin. exact (Hcalls _ Hin).
  - intros Hin. exact (Hcalls _ Hin).
Qed.

End Orchestrator.

Lemma RunRestart_platform_failure_witness :
  ∃ w,
    RunRestart restart_samples.ListWorkloads restart_samples.RestartWorkload
      10 [] =
    (PlatformRestartFailed,
     OutcomeError (errorString "deployment is paused"), w)
    ∧ statusOf (OutcomeError (errorString "deployment is paused")) = Error
    ∧ (∀ ref, RestartWorkloadCall CustomerWorkloads ref ∉ calls w)
    ∧ ListWorkloadsCall CustomerWorkloads ∉ calls w.
Proof.
  apply (RunRestart_platform_failure
           restart_samples.ListWorkloads restart_samples.RestartWorkload 10
           [] (errorString "deployment is paused")).
  right.
  exists ["kyma-system/eventing-manager"], "kyma-system/api-gateway",
    ["kyma-system/telemetry-manager"], ["kyma-system/eventing-manager"],
    ["kyma-system/eventing-manager"].
  repeat split; reflexivity.
Defined.

End restart_properties.

(** * Properties of the merge *)

Module merge_properties.
Import document mergo reference.

(** ** Induction on documents *)

Lemma depth_lookup (m : Document) (k : string) (v : Value) :
  m !! k = Some v → (depth v < depth (VMap m))%nat.
Proof.
  cbn [depth]. intros Hk. apply Nat.lt_succ_r. revert k v Hk.
  apply (map_fold_weak_ind
           (λ r (m : Document), ∀ k v, m !! k = Some v → (depth v ≤ r)%nat)).
  - intros k v. by rewrite lookup_empty.
  - intros i x m' r Hi IH k v. rewrite lookup_insert.
    case_decide as Hik.
    + intros [= ->]. apply Nat.le_max_l.
    + intros Hk. etrans; [by eapply IH | apply Nat.le_max_r].
Qed.

Lemma Value_ind_map (P : Value → Prop) :
  (∀ s, P (VScalar s)) →
  (∀ m, map_Forall (λ _ v, P v) m → P (VMap m)) →
  ∀ v, P v.
Proof.
  intros Hscalar Hmap.
  assert (Hbound : ∀ n v, (depth v < n)%nat → P v).
  { induction n as [|n IH]; intros v Hv; [lia|].
    destruct v as [s|m]; [apply Hscalar|].
    apply Hmap. intros k v' Hk. apply IH.
    pose proof (depth_lookup m k v' Hk). lia. }
  intros v. apply (Hbound (S (depth v))). lia.
Qed.

(** ** The loop over the keys *)

Section Keys.
Variable g : Value → Value → option Value.
Variable src : Document.

Lemma mergeKeys_nil (dst : Document) :
  mergeKeys src (g <$> src) [] dst = Some dst.
Proof. reflexivity. Qed.

Lemma mergeKeys_cons (k : string) (keys : list string) (dst : Document) :
  mergeKeys src (g <$> src) (k :: keys) dst =
  match src !! k with
  | Some sv =>
      match mergeEntry (g sv) k sv dst with
      | Some d => mergeKeys src (g <$> src) keys d
      | None => None
      end
  | None => mergeKeys src (g <$> src) keys dst
  end.
Proof.
  unfold mergeKeys. cbn [foldl]. rewrite lookup_fmap.
  destruct (src !! k) as [sv|]; cbn [fmap option_fmap option_map]; [|done].
  destruct (mergeEntry (g sv) k sv dst); [done|].
  induction keys as [|k' keys IH]; [done | exact IH].
Qed.

Lemma entryResult_insert_ne (dst : Document) (k k' : string) (v : Value) :
  k ≠ k' → entryResult g src (<[k := v]> dst) k' = entryResult g src dst k'.
Proof. intros Hne. unfold entryResult. by rewrite lookup_insert_ne. Qed.

(** The loop writes, under each key it visits, what [entryResult] says, and
    leaves the other keys alone; it fails exactly on a conflict. *)
Lemma mergeKeys_lookup (keys : list string) :
  NoDup keys →
  ∀ dst,
    match mergeKeys src (g <$> src) keys dst with
    | Some r =>
        ∀ k, (k ∈ keys → entryResult g src dst k = Some (r !! k))
             ∧ (k ∉ keys → r !! k = dst !! k)
    | None => ∃ k, k ∈ keys ∧ entryResult g src dst k = None
    end.
Proof.
  induction keys as [|k0 keys IH]; intros Hnodup dst.
  - rewrite mergeKeys_nil. intros k. split; [by intros ?%elem_of_nil | done].
  - apply NoDup_cons in Hnodup as [Hk0 Hnodup]. specialize (IH Hnodup).
    rewrite mergeKeys_cons.
    assert (Hstep : ∀ d v,
              (∀ k, k ≠ k0 → d !! k = dst !! k) →
              entryResult g src dst k0 = Some v → d !! k0 = v →
              match mergeKeys src (g <$> src) keys d with
              | Some r =>
                  ∀ k, (k ∈ k0 :: keys → entryResult g src dst k = Some (r !! k))
                       ∧ (k ∉ k0 :: keys → r !! k = dst !! k)
              | None => ∃ k, k ∈ k0 :: keys ∧ entryResult g src dst k = None
              end).
    { intros d v Hother Hres Hd. specialize (IH d).
      assert (Hsame : ∀ k, k ≠ k0 →
                entryResult g src d k = entryResult g src dst k).
      { intros k Hk. unfold entryResult. by rewrite Hother. }
      destruct (mergeKeys src (g <$> src) keys d) as [r|].
      - intros k. destruct (IH k) as [Hin Hout]. split.
        + intros [->|Hk]%elem_of_cons.
          * rewrite Hres, (proj2 (IH k0) Hk0). by rewrite Hd.
          * rewrite <- Hsame; [by apply Hin|]. by intros ->.
        + intros [Hne Hk]%not_elem_of_cons. rewrite Hout, Hother; done.
      - destruct IH as (k & Hk & Hconflict). exists k.
        split; [by right|]. rewrite <- Hsame; [done|]. by intros ->. }
    unfold mergeEntry.
    destruct (src !! k0) as [sv|] eqn:Hsrc.
    + destruct (dst !! k0) as [dv|] eqn:Hdst.
      * destruct (g sv dv) as [rv|] eqn:Hg.
        -- apply (Hstep _ (Some rv)).
           ++ intros k Hk. by rewrite lookup_insert_ne.
           ++ unfold entryResult. by rewrite Hsrc, Hdst, Hg.
           ++ by rewrite lookup_insert_eq.
        -- exists k0. split; [by left|].
           unfold entryResult. by rewrite Hsrc, Hdst, Hg.
      * apply (Hstep _ (Some sv)).
        -- intros k Hk. by rewrite lookup_insert_ne.
        -- unfold entryResult. by rewrite Hsrc, Hdst.
        -- by rewrite lookup_insert_eq.
    + apply (Hstep dst (dst !! k0)); [done| |done].
      unfold entryResult. by rewrite Hsrc.
Qed.

(** When every key of the override is visited once, the result of the loop
    is determined key by key, whatever the order of the visit. *)
Lemma mergeKeys_Some_iff (keys : list string) (dst r : Document) :
  NoDup keys →
  (∀ k, k ∈ keys ↔ is_Some (src !! k)) →
  mergeKeys src (g <$> src) keys dst = Some r
  ↔ ∀ k, entryResult g src dst k = Some (r !! k).
Proof.
  intros Hnodup Hkeys.
  assert (Hout : ∀ k, k ∉ keys → entryResult g src dst k = Some (dst !! k)).
  { intros k Hk. unfold entryResult.
    destruct (src !! k) eqn:Hsrc; [|done].
    destruct Hk. apply Hkeys. by eexists. }
  pose proof (mergeKeys_lookup keys Hnodup dst) as Hloop.
  destruct (mergeKeys src (g <$> src) keys dst) as [r'|].
  - split.
    + intros [= <-] k. destruct (Hloop k) as [Hin Hnotin].
      destruct (decide (k ∈ keys)) as [Hk|Hk]; [by apply Hin|].
      by rewrite (Hout k Hk), Hnotin.
    + intros Hr. f_equal. apply map_eq. intros k.
      destruct (Hloop k) as [Hin Hnotin].
      destruct (decide (k ∈ keys)) as [Hk|Hk].
      * specialize (Hin Hk). rewrite Hr in Hin. by injection Hin.
      * rewrite (Hnotin Hk). specialize (Hr k).
        rewrite (Hout k Hk) in Hr. by injection Hr.
  - split; [done|]. intros Hr.
    destruct Hloop as (k & _ & Hconflict). by rewrite Hr in Hconflict.
Qed.

End Keys.

Lemma entryResult_ext (g1 g2 : Value → Value → option Value)
    (src dst : Document) (k : string) :
  (∀ sv dv, src !! k = Some sv → g1 sv dv = g2 sv dv) →
  entryResult g1 src dst k = entryResult g2 src dst k.
Proof.
  intros Hg. unfold entryResult.
  destruct (src !! k) as [sv|]; [|done].
  destruct (dst !! k) as [dv|]; [|done]. by rewrite (Hg sv dv).
Qed.

(** ** The merge of values *)

Lemma deepMerge_VMap (MapKeys : Document → list string) (sm dm : Document) :
  deepMerge MapKeys (VMap sm) (VMap dm)
  = VMap <$> mergeKeys sm (deepMerge MapKeys <$> sm) (MapKeys sm) dm.
Proof. reflexivity. Qed.

(** The iteration order of the maps does not show in the result. *)
Lemma deepMerge_order (MapKeys1 MapKeys2 : Document → list string) :
  MapKeysOrder MapKeys1 → MapKeysOrder MapKeys2 →
  ∀ src dst, deepMerge MapKeys1 src dst = deepMerge MapKeys2 src dst.
Proof.
  intros Horder1 Horder2 src.
  induction src as [s|sm IH] using Value_ind_map; intros dst.
  - reflexivity.
  - destruct dst as [s|dm]; [reflexivity|].
    rewrite !deepMerge_VMap. f_equal. apply option_eq. intros r.
    destruct (Horder1 sm) as [Hnodup1 Hkeys1].
    destruct (Horder2 sm) as [Hnodup2 Hkeys2].
    rewrite !mergeKeys_Some_iff by done.
    apply forall_proper. intros k.
    rewrite (entryResult_ext (deepMerge MapKeys1) (deepMerge MapKeys2));
      [done|].
    intros sv dv Hsv. by apply (IH k sv Hsv).
Qed.

Section Order.
Variable MapKeys : Document → list string.
Hypothesis MapKeys_order : MapKeysOrder MapKeys.

(** Merging a value into itself changes nothing. *)
Lemma deepMerge_self (v : Value) : deepMerge MapKeys v v = Some v.
Proof.
  induction v as [s|m IH] using Value_ind_map; [reflexivity|].
  rewrite deepMerge_VMap.
  destruct (MapKeys_order m) as [Hnodup Hkeys].
  assert (Hloop : mergeKeys m (deepMerge MapKeys <$> m) (MapKeys m) m
                  = Some m).
  { apply mergeKeys_Some_iff; [done..|]. intros k. unfold entryResult.
    destruct (m !! k) as [v|] eqn:Hk; [|done].
    by rewrite (IH k v Hk). }
  by rewrite Hloop.
Qed.

(** Merging the override a second time changes nothing. *)
Lemma deepMerge_idempotent (src dst r : Value) :
  deepMerge MapKeys src dst = Some r → deepMerge MapKeys src r = Some r.
Proof.
  revert dst r.
  induction src as [s|sm IH] using Value_ind_map; intros dst r Hmerge.
  - destruct dst; [|discriminate]. by injection Hmerge as <-.
  - destruct dst as [s|dm]; [discriminate|].
    rewrite deepMerge_VMap in Hmerge.
    destruct (mergeKeys sm (deepMerge MapKeys <$> sm) (MapKeys sm) dm)
      as [rm|] eqn:Hloop; [|discriminate].
    injection Hmerge as <-. rewrite deepMerge_VMap.
    destruct (MapKeys_order sm) as [Hnodup Hkeys].
    assert (Hagain : mergeKeys sm (deepMerge MapKeys <$> sm) (MapKeys sm) rm
                     = Some rm).
    { apply mergeKeys_Some_iff; [done..|]. intros k.
      pose proof (proj1 (mergeKeys_Some_iff _ _ _ _ _ Hnodup Hkeys) Hloop k)
        as Hk.
      clear Hloop. rename Hk into Hloop. unfold entryResult in *.
      destruct (sm !! k) as [sv|] eqn:Hsv; [|done].
      destruct (dm !! k) as [dv|].
      - destruct (deepMerge MapKeys sv dv) as [rv|] eqn:Hchild;
          [|discriminate].
        injection Hloop as <-. by rewrite (IH k sv Hsv dv rv Hchild).
      - injection Hloop as <-. by rewrite deepMerge_self. }
    by rewrite Hagain.
Qed.

Lemma Merge_idempotent (dst src m : Document) :
  Merge MapKeys dst src = (m, None) → Merge MapKeys m src = (m, None).
Proof.
  unfold Merge. intros Hmerge.
  destruct (deepMerge MapKeys (VMap src) (VMap dst)) as [[s|m']|] eqn:Hdeep;
    try discriminate.
  injection Hmerge as ->.
  by rewrite (deepMerge_idempotent _ _ _ Hdeep).
Qed.

End Order.

Lemma Merge_order (MapKeys1 MapKeys2 : Document → list string)
    (dst src : Document) :
  MapKeysOrder MapKeys1 → MapKeysOrder MapKeys2 →
  Merge MapKeys1 dst src = Merge MapKeys2 dst src.
Proof.
  intros Horder1 Horder2. unfold Merge.
  by rewrite (deepMerge_order MapKeys1 MapKeys2).
Qed.

Lemma keysInOrder_order : MapKeysOrder keysInOrder.
Proof.
  intros m. unfold keysInOrder. split; [apply NoDup_fst_map_to_list|].
  intros k. rewrite list_elem_of_fmap. split.
  - intros ([k' v] & -> & Hkv%elem_of_map_to_list). by exists v.
  - intros [v Hv]. exists (k, v). by rewrite elem_of_map_to_list.
Qed.

Lemma keysReversed_order : MapKeysOrder keysReversed.
Proof.
  intros m. unfold keysReversed.
  destruct (keysInOrder_order m) as [Hnodup Hkeys].
  split; [by rewrite reverse_Permutation|].
  intros k. by rewrite elem_of_reverse.
Qed.

(** ** MergeOverrides *)

Section MergeOverrides.
Variable Unmarshal : list byte → Document * option error.
Variable Marshal : Document → list byte * option error.

(** C8: [MergeOverrides] is a function of the template bytes and of the
    overrides alone (it takes no client and reads no cluster), and the one
    thing Go leaves open while it runs, the order in which the maps are
    iterated, does not show: two calls on the same template and overrides
    return the same bytes and the same error, whatever the iteration orders
    are. *)
Theorem MergeOverrides_deterministic
    (MapKeys1 MapKeys2 : Document → list string)
    (template : list byte) (overrides : Document) :
  MapKeysOrder MapKeys1 → MapKeysOrder MapKeys2 →
  clusterconfig.MergeOverrides Unmarshal Marshal MapKeys1 template overrides
  = clusterconfig.MergeOverrides Unmarshal Marshal MapKeys2 template overrides.
Proof.
  intros Horder1 Horder2. unfold clusterconfig.MergeOverrides.
  destruct (Unmarshal template) as [templateMap [err|]]; [reflexivity|].
  by rewrite (Merge_order MapKeys1 MapKeys2).
Qed.

(** C6: when [MergeOverrides] succeeds, merging the same overrides into the
    merged document again leaves it as it is; and, provided the bytes
    returned are parsed back to the document they were printed from,
    [MergeOverrides] on these bytes and the same overrides returns the same
    bytes. *)
Theorem MergeOverrides_idempotent
    (MapKeys1 MapKeys2 : Document → list string)
    (template out : list byte) (overrides : Document) :
  MapKeysOrder MapKeys1 → MapKeysOrder MapKeys2 →
  clusterconfig.MergeOverrides Unmarshal Marshal MapKeys1 template overrides
  = (out, None) →
  let merged := (Merge MapKeys1 (Unmarshal template).1 overrides).1 in
  Merge MapKeys2 merged overrides = (merged, None)
  ∧ (Unmarshal out = (merged, None) →
     clusterconfig.MergeOverrides Unmarshal Marshal MapKeys2 out overrides
     = (out, None)).
Proof.
  intros Horder1 Horder2. unfold clusterconfig.MergeOverrides.
  destruct (Unmarshal template) as [templateMap [err|]]; [discriminate|].
  cbn [fst].
  destruct (Merge MapKeys1 templateMap overrides) as [merged [err|]]
    eqn:Hmerge; [discriminate|].
  intros Hout. cbn [fst].
  assert (Hagain : Merge MapKeys2 merged overrides = (merged, None)).
  { rewrite (Merge_order MapKeys2 MapKeys1) by done.
    by apply (Merge_idempotent MapKeys1 Horder1 templateMap). }
  split; [done|]. intros ->. by rewrite Hagain.
Qed.

End MergeOverrides.

Lemma MergeOverrides_deterministic_witness :
  clusterconfig.MergeOverrides merge_samples.Unmarshal merge_samples.Marshal
    keysInOrder merge_samples.template
    (clusterconfig.clusterConfiguration clusterconfig.k3d).1
  = clusterconfig.MergeOverrides merge_samples.Unmarshal merge_samples.Marshal
      keysReversed merge_samples.template
      (clusterconfig.clusterConfiguration clusterconfig.k3d).1.
Proof.
  exact (MergeOverrides_deterministic
           merge_samples.Unmarshal merge_samples.Marshal
           keysInOrder keysReversed merge_samples.template
           (clusterconfig.clusterConfiguration clusterconfig.k3d).1
           keysInOrder_order keysReversed_order).
Defined.

Lemma MergeOverrides_idempotent_witness :
  clusterconfig.MergeOverrides merge_samples.Unmarshal merge_samples.Marshal
    keysReversed (merge_samples.Marshal merge_samples.mergedMap).1
    (clusterconfig.clusterConfiguration clusterconfig.k3d).1
  = ((merge_samples.Marshal merge_samples.mergedMap).1, None).
Proof.
  refine (proj2 (MergeOverrides_idempotent
                   merge_samples.Unmarshal merge_samples.Marshal
                   keysInOrder keysReversed merge_samples.template
                   (merge_samples.Marshal merge_samples.mergedMap).1
                   (clusterconfig.clusterConfiguration clusterconfig.k3d).1
                   keysInOrder_order keysReversed_order _) _);
    vm_compute; reflexivity.
Defined.

End merge_properties.

(** * Properties of the pattern matcher and of the flavour patterns *)

Module regexp_properties.
Import regexp language.

(** ** The matcher decides the language *)

Lemma nullable_lang (r : Expr) : nullable r = true → lang r "".
Proof.
  induction r as [| | | | | |r1 IH1 r2 IH2|r1 IH1 r2 IH2|r IH]; cbn;
    try discriminate.
  - intros _. constructor.
  - intros [H1 H2]%andb_true_iff.
    apply (lang_Concat r1 r2 "" ""); auto.
  - intros [H1|H2]%orb_true_iff.
    + apply lang_Alternate_l; auto.
    + apply lang_Alternate_r; auto.
  - intros _. constructor.
Qed.

Lemma lang_EmptyMatch_inv (s : string) : lang EmptyMatch s → s = "".
Proof. by inversion 1. Qed.

Lemma lang_NoMatch_inv (s : string) : ¬ lang NoMatch s.
Proof. by inversion 1. Qed.

Lemma lang_Literal_inv (c : ascii) (s : string) :
  lang (Literal c) s → s = String c "".
Proof. by inversion 1. Qed.

Lemma lang_Concat_inv (r1 r2 : Expr) (s : string) :
  lang (Concat r1 r2) s → ∃ s1 s2, s = s1 +:+ s2 ∧ lang r1 s1 ∧ lang r2 s2.
Proof. inversion 1; subst. eauto. Qed.

Lemma derive_lang (c : ascii) (r : Expr) (s : string) :
  lang (derive c r) s → lang r (String c s).
Proof.
  revert s.
  induction r as [| |c'| | | |r1 IH1 r2 IH2|r1 IH1 r2 IH2|r IH];
    intros s; cbn [derive].
  - by intros ?%lang_NoMatch_inv.
  - by intros ?%lang_NoMatch_inv.
  - destruct (Ascii.eqb_spec c c') as [->|];
      [intros ->%lang_EmptyMatch_inv; constructor
      |by intros ?%lang_NoMatch_inv].
  - destruct (isDigit c) eqn:Hc;
      [intros ->%lang_EmptyMatch_inv; by constructor
      |by intros ?%lang_NoMatch_inv].
  - destruct (isNewline c) eqn:Hc;
      [by intros ?%lang_NoMatch_inv
      |intros ->%lang_EmptyMatch_inv; by constructor].
  - intros ->%lang_EmptyMatch_inv. constructor.
  - assert (Hleft : lang (Concat (derive c r1) r2) s →
                    lang (Concat r1 r2) (String c s)).
    { intros (s1 & s2 & -> & H1 & H2)%lang_Concat_inv.
      apply (lang_Concat r1 r2 (String c s1) s2); auto. }
    destruct (nullable r1) eqn:Hnull; [|exact Hleft].
    inversion 1; subst; [by apply Hleft|].
    apply (lang_Concat r1 r2 "" (String c s)); [by apply nullable_lang|auto].
  - inversion 1; subst.
    + apply lang_Alternate_l; auto.
    + apply lang_Alternate_r; auto.
  - intros (s1 & s2 & -> & H1 & H2)%lang_Concat_inv.
    apply (lang_Star_cons r (String c s1) s2); auto.
Qed.

Lemma append_empty (s1 s2 : string) : s1 +:+ s2 = "" → s1 = "" ∧ s2 = "".
Proof. destruct s1; [done | discriminate]. Qed.

Lemma lang_nullable (r : Expr) : lang r "" → nullable r = true.
Proof.
  intros H. remember "" as s eqn:Hs. induction H; try discriminate; try done.
  - apply append_empty in Hs as [-> ->]. cbn. by rewrite IHlang1, IHlang2.
  - cbn. by rewrite IHlang.
  - cbn. rewrite IHlang by done. apply orb_true_r.
Qed.

Lemma lang_derive (c : ascii) (r : Expr) (s : string) :
  lang r (String c s) → lang (derive c r) s.
Proof.
  intros H. remember (String c s) as cs eqn:Hcs. revert c s Hcs.
  induction H as [|c'|c' Hd|c' Hn|c'|r1 r2 s1 s2 H1 IH1 H2 IH2
                 |r1 r2 s0 H IH|r1 r2 s0 H IH| |r s1 s2 H1 IH1 H2 IH2];
    intros c s Hcs; cbn [derive].
  - discriminate.
  - injection Hcs as -> <-. rewrite Ascii.eqb_refl. constructor.
  - injection Hcs as -> <-. rewrite Hd. constructor.
  - injection Hcs as -> <-. rewrite Hn. constructor.
  - injection Hcs as -> <-. constructor.
  - destruct s1 as [|c1 s1].
    + simpl in Hcs. rewrite (lang_nullable r1 H1).
      apply lang_Alternate_r. by apply IH2.
    + injection Hcs as -> <-.
      assert (Hleft : lang (Concat (derive c r1) r2) (s1 +:+ s2)).
      { apply lang_Concat; [by apply IH1 | done]. }
      destruct (nullable r1); [by apply lang_Alternate_l | done].
  - apply lang_Alternate_l. by apply IH.
  - apply lang_Alternate_r. by apply IH.
  - discriminate.
  - destruct s1 as [|c1 s1].
    + simpl in Hcs. by apply IH2.
    + injection Hcs as -> <-. apply lang_Concat; [by apply IH1 | done].
Qed.

Lemma matches_lang (r : Expr) (s : string) : matches r s = true ↔ lang r s.
Proof.
  revert r. induction s as [|c s IH]; intros r; cbn [matches].
  - split; [apply nullable_lang | apply lang_nullable].
  - rewrite IH. split; [apply derive_lang | apply lang_derive].
Qed.

Lemma MatchString_lang (re : Regexp) (s : string) :
  MatchString re s = true ↔ lang (searched re) s.
Proof. apply matches_lang. Qed.

(** ** Strings *)

Lemma append_nil_l (s : string) : "" +:+ s = s.
Proof. reflexivity. Qed.

Lemma append_cons (c : ascii) (s1 s2 : string) :
  String c s1 +:+ s2 = String c (s1 +:+ s2).
Proof. reflexivity. Qed.

Lemma append_nil_r (s : string) : s +:+ "" = s.
Proof. induction s as [|c s IH]; [done|]. by rewrite append_cons, IH. Qed.

Lemma occurs_append (c : ascii) (s1 s2 : string) :
  occurs c (s1 +:+ s2) = occurs c s1 || occurs c s2.
Proof.
  induction s1 as [|c1 s1 IH]; [done|].
  rewrite append_cons. cbn [occurs]. by rewrite IH, orb_assoc.
Qed.

(** ** Characters of the strings of an expression *)

Lemma lang_charset (r : Expr) (s : string) (c : ascii) :
  lang r s → occurs c s = true → charset r c = true.
Proof.
  induction 1 as [|c'|c' Hd|c' Hn|c'|r1 r2 s1 s2 H1 IH1 H2 IH2
                 |r1 r2 s0 H IH|r1 r2 s0 H IH| |r s1 s2 H1 IH1 H2 IH2];
    cbn [charset occurs]; try discriminate.
  - by rewrite orb_false_r.
  - rewrite orb_false_r. by intros ->%Ascii.eqb_eq.
  - rewrite orb_false_r. intros ->%Ascii.eqb_eq. by rewrite Hn.
  - done.
  - rewrite occurs_append. intros [?|?]%orb_true_iff.
    + by rewrite IH1.
    + rewrite IH2 by done. apply orb_true_r.
  - intros ?. by rewrite IH.
  - intros ?. rewrite IH by done. apply orb_true_r.
  - rewrite occurs_append. intros [?|?]%orb_true_iff; auto.
Qed.

Lemma lang_requires (r : Expr) (s : string) (c : ascii) :
  lang r s → requires c r = true → occurs c s = true.
Proof.
  induction 1 as [|c'|c' Hd|c' Hn|c'|r1 r2 s1 s2 H1 IH1 H2 IH2
                 |r1 r2 s0 H IH|r1 r2 s0 H IH| |r s1 s2 H1 IH1 H2 IH2];
    cbn [requires occurs]; try discriminate.
  - intros ->. done.
  - rewrite occurs_append. intros [?|?]%orb_true_iff.
    + by rewrite IH1.
    + rewrite IH2 by done. apply orb_true_r.
  - intros [? _]%andb_true_iff. auto.
  - intros [_ ?]%andb_true_iff. auto.
Qed.

(** ** Numbers *)

Lemma lang_Star_Digit (s : string) :
  lang (Star Digit) s ↔ allDigits s = true.
Proof.
  split.
  - intros H. remember (Star Digit) as r eqn:Hr.
    induction H as [| | | | | | | | |r s1 s2 H1 _ H2 IH2]; try discriminate.
    + done.
    + injection Hr as ->. inversion H1 as [| |c Hc| | | | | | |]; subst.
      rewrite append_cons, append_nil_l. cbn [allDigits]. by rewrite Hc, IH2.
  - induction s as [|c s IH]; [constructor|].
    cbn [allDigits]. intros [Hc Hs]%andb_true_iff.
    change (String c s) with (String c "" +:+ s).
    apply lang_Star_cons; [by constructor | auto].
Qed.

Lemma lang_Plus_Digit (s : string) :
  lang (Plus Digit) s ↔ number s = true.
Proof.
  unfold Plus. split.
  - intros (s1 & s2 & -> & H1 & H2)%lang_Concat_inv.
    inversion H1 as [| |c Hc| | | | | | |]; subst.
    apply lang_Star_Digit in H2.
    rewrite append_cons, append_nil_l. cbn [number allDigits].
    by rewrite Hc, H2.
  - destruct s as [|c s]; [discriminate|]. cbn [number allDigits].
    intros [Hc Hs]%andb_true_iff.
    change (String c s) with (String c "" +:+ s).
    apply lang_Concat; [by constructor | by apply lang_Star_Digit].
Qed.

(** ** Building and taking apart the strings of a sequence *)

Lemma lang_Literal_cons (c : ascii) (r : Expr) (s : string) :
  lang (Concat (Literal c) r) (String c s) ↔ lang r s.
Proof.
  split.
  - intros (s1 & s2 & Heq & ->%lang_Literal_inv & H2)%lang_Concat_inv.
    rewrite append_cons, append_nil_l in Heq. by injection Heq as ->.
  - intros H. change (String c s) with (String c "" +:+ s).
    apply lang_Concat; [constructor | done].
Qed.

Lemma lang_Concat_EmptyMatch_l (r : Expr) (s : string) :
  lang (Concat EmptyMatch r) s ↔ lang r s.
Proof.
  split.
  - by intros (s1 & s2 & -> & ->%lang_EmptyMatch_inv & H2)%lang_Concat_inv.
  - intros H. rewrite <- (append_nil_l s).
    apply lang_Concat; [constructor | done].
Qed.

Lemma lang_Concat_EmptyMatch_r (r : Expr) (s : string) :
  lang (Concat r EmptyMatch) s ↔ lang r s.
Proof.
  split.
  - intros (s1 & s2 & -> & H1 & ->%lang_EmptyMatch_inv)%lang_Concat_inv.
    by rewrite append_nil_r.
  - intros H. rewrite <- (append_nil_r s).
    apply lang_Concat; [done | constructor].
Qed.

Lemma lang_number_then (r : Expr) (s : string) :
  lang (Concat (Plus Digit) r) s
  ↔ ∃ n rest, s = n +:+ rest ∧ number n = true ∧ lang r rest.
Proof.
  split.
  - intros (n & rest & -> & Hn%lang_Plus_Digit & Hrest)%lang_Concat_inv.
    eauto.
  - intros (n & rest & -> & Hn%lang_Plus_Digit & Hrest).
    by apply lang_Concat.
Qed.

Lemma lang_Literal_then (c : ascii) (r : Expr) (s : string) :
  lang (Concat (Literal c) r) s ↔ ∃ rest, s = String c rest ∧ lang r rest.
Proof.
  split.
  - intros (s1 & s2 & -> & ->%lang_Literal_inv & H2)%lang_Concat_inv.
    by exists s2.
  - intros (rest & -> & H). by apply lang_Literal_cons.
Qed.

Lemma lang_AnyCharNotNL_then (r : Expr) (s : string) :
  lang (Concat AnyCharNotNL r) s
  ↔ ∃ c rest, s = String c rest ∧ isNewline c = false ∧ lang r rest.
Proof.
  split.
  - intros (s1 & s2 & -> & H1 & H2)%lang_Concat_inv.
    inversion H1 as [| | |c Hc| | | | | |]; subst. by exists c, s2.
  - intros (c & rest & -> & Hc & H).
    change (String c rest) with (String c "" +:+ rest).
    apply lang_Concat; [by constructor | done].
Qed.

Lemma lang_number_end (s : string) :
  lang (Concat (Plus Digit) EmptyMatch) s ↔ number s = true.
Proof. by rewrite lang_Concat_EmptyMatch_r, lang_Plus_Digit. Qed.

(** ** The three patterns *)

Import clusterconfig reference.

Lemma searched_matcherGKE :
  searched matcherGKE =
  Concat EmptyMatch
    (Concat
       (Concat (Literal "v") (Concat (Plus Digit)
       (Concat (Literal ".") (Concat (Plus Digit)
       (Concat (Literal ".") (Concat (Plus Digit)
       (Concat (Literal "-") (Concat (Literal "g") (Concat (Literal "k")
       (Concat (Literal "e") (Concat (Literal ".")
       (Concat (Plus Digit) EmptyMatch))))))))))))
       EmptyMatch).
Proof. reflexivity. Qed.

Lemma searched_matcherk3d :
  searched matcherk3d =
  Concat EmptyMatch
    (Concat
       (Concat (Literal "v") (Concat (Plus Digit)
       (Concat (Literal ".") (Concat (Plus Digit)
       (Concat (Literal ".") (Concat (Plus Digit)
       (Concat (Literal "+") (Concat (Literal "k") (Concat (Literal "3")
       (Concat (Literal "s")
       (Concat (Plus Digit) EmptyMatch)))))))))))
       EmptyMatch).
Proof. reflexivity. Qed.


Ltac take_apart H :=
  repeat first
    [ apply (proj1 (lang_Literal_then _ _ _)) in H as (? & -> & H)
    | apply (proj1 (lang_number_end _)) in H
    | apply (proj1 (lang_number_then _ _)) in H as (? & ? & -> & ? & H)
    | apply (proj1 (lang_AnyCharNotNL_then _ _)) in H as (? & ? & -> & ? & H) ].

Ltac put_together :=
  repeat first
    [ apply (proj2 (lang_number_end _)); assumption
    | apply (proj2 (lang_Literal_then _ _ _)); eexists; split; [reflexivity|]
    | apply (proj2 (lang_number_then _ _)); do 2 eexists;
      split; [reflexivity|]; split; [eassumption|]
    | apply (proj2 (lang_AnyCharNotNL_then _ _)); do 2 eexists;
      split; [reflexivity|]; split; [eassumption|] ].

(** X12: The first pattern accepts exactly the versions [vN.N.N-gke.N], each [N]
    a non-empty string of digits. *)
Theorem matcherGKE_accepts (s : string) :
  MatchString matcherGKE s = true
  ↔ ∃ major minor patch build,
      s = "v" +:+ major +:+ "." +:+ minor +:+ "." +:+ patch
          +:+ "-gke." +:+ build
      ∧ number major = true ∧ number minor = true
      ∧ number patch = true ∧ number build = true.
Proof.
  rewrite MatchString_lang, searched_matcherGKE.
  rewrite lang_Concat_EmptyMatch_l, lang_Concat_EmptyMatch_r.
  split.
  - intros H. take_apart H. do 4 eexists. split; [reflexivity|]. done.
  - intros (major & minor & patch & build & -> & ? & ? & ? & ?).
    put_together.
Qed.

(** X13: The second pattern accepts exactly the versions [vN.N.N+k3sN]. *)
Theorem matcherk3d_accepts (s : string) :
  MatchString matcherk3d s = true
  ↔ ∃ major minor patch build,
      s = "v" +:+ major +:+ "." +:+ minor +:+ "." +:+ patch
          +:+ "+k3s" +:+ build
      ∧ number major = true ∧ number minor = true
      ∧ number patch = true ∧ number build = true.
Proof.
  rewrite MatchString_lang, searched_matcherk3d.
  rewrite lang_Concat_EmptyMatch_l, lang_Concat_EmptyMatch_r.
  split.
  - intros H. take_apart H. do 4 eexists. split; [reflexivity|]. done.
  - intros (major & minor & patch & build & -> & ? & ? & ? & ?).
    put_together.
Qed.


Lemma kubelet_patterns_exclusive (s : string) :
  MatchString matcherGKE s && MatchString matcherk3d s = false.
Proof.
  apply not_true_is_false.
  intros [HGKE Hk3d]%andb_true_iff.
  apply MatchString_lang in HGKE, Hk3d.
  assert (Hdash : occurs "-" s = true).
  { by apply (lang_requires _ _ _ HGKE). }
  pose proof (lang_charset _ _ _ Hk3d Hdash) as Hcharset.
  vm_compute in Hcharset. discriminate.
Qed.

(** X15: No kubelet version matches both the first and the second pattern: a
    version that matches the GKE pattern does not match the k3d pattern. *)
Theorem matcherGKE_matcherk3d_exclusive (s : string) :
  MatchString matcherGKE s = true → MatchString matcherk3d s = false.
Proof.
  intros HGKE. pose proof (kubelet_patterns_exclusive s) as Hexclusive.
  by rewrite HGKE in Hexclusive.
Qed.

Lemma matcherGKE_matcherk3d_exclusive_witness :
  MatchString matcherk3d "v1.27.3-gke.100" = false.
Proof.
  exact (matcherGKE_matcherk3d_exclusive "v1.27.3-gke.100" eq_refl).
Defined.

(** X16: A node is classified by the first pattern it matches; as the two kubelet
    patterns exclude each other, it is classified k3d exactly when its
    kubelet version matches the second pattern. *)
Theorem flavourOf_by_pattern (node : corev1.Node) :
  let kubelet :=
    corev1.KubeletVersion (corev1.NodeInfo (corev1.Status node)) in
  let image := corev1.OSImage (corev1.NodeInfo (corev1.Status node)) in
  (flavourOf node = Some GKE ↔ MatchString matcherGKE kubelet = true)
  ∧ (flavourOf node = Some k3d ↔ MatchString matcherk3d kubelet = true)
  ∧ (flavourOf node = Some Gardener
     ↔ MatchString matcherGKE kubelet = false
       ∧ MatchString matcherk3d kubelet = false
       ∧ MatchString matcherGardener image = true)
  ∧ flavourOf node ≠ Some Unknown.
Proof.
  intros kubelet image. unfold flavourOf, matchNode.
  fold kubelet. fold image.
  pose proof (kubelet_patterns_exclusive kubelet) as Hexclusive.
  destruct (MatchString matcherGKE kubelet),
    (MatchString matcherk3d kubelet),
    (MatchString matcherGardener image);
    try discriminate Hexclusive; intuition congruence.
Qed.

End regexp_properties.

(** * Further properties of package clusterconfig *)

Module clusterconfig_size.
Import corev1 clusterconfig reference clusterconfig_properties.

(** ** Sums of quantities *)

Lemma foldl_Qplus_acc (a : Q) (l : list Q) :
  (foldl Qplus a l == a + foldl Qplus 0 l)%Q.
Proof.
  revert a. induction l as [|x l IH]; intros a; cbn [foldl].
  - ring.
  - rewrite (IH (a + x)%Q), (IH (0 + x)%Q). ring.
Qed.

Lemma foldl_Qplus_app (l1 l2 : list Q) :
  (foldl Qplus 0 (l1 ++ l2) == foldl Qplus 0 l1 + foldl Qplus 0 l2)%Q.
Proof. rewrite foldl_app. apply foldl_Qplus_acc. Qed.

Lemma foldl_Qplus_Permutation (l1 l2 : list Q) :
  l1 ≡ₚ l2 → (foldl Qplus 0 l1 == foldl Qplus 0 l2)%Q.
Proof.
  induction 1 as [|x l1 l2 _ IH|x y l|l1 l2 l3 _ IH1 _ IH2]; cbn [foldl].
  - reflexivity.
  - rewrite (foldl_Qplus_acc (0 + x) l1), (foldl_Qplus_acc (0 + x) l2).
    by rewrite IH.
  - rewrite (foldl_Qplus_acc (0 + y + x) l), (foldl_Qplus_acc (0 + x + y) l).
    ring.
  - by rewrite IH1.
Qed.

Lemma foldl_Qplus_nonneg (l : list Q) :
  Forall (λ q, 0 <= q)%Q l → (0 <= foldl Qplus 0 l)%Q.
Proof.
  induction 1 as [|x l Hx _ IH]; cbn [foldl]; [apply Qle_refl|].
  rewrite (foldl_Qplus_acc (0 + x) l). lra.
Qed.

Lemma capacityTotal_Permutation (name : ResourceName) (nodes nodes' : NodeList) :
  nodes ≡ₚ nodes' →
  (capacityTotal name nodes == capacityTotal name nodes')%Q.
Proof.
  intros Hperm. unfold capacityTotal.
  apply foldl_Qplus_Permutation. by apply fmap_Permutation.
Qed.

Lemma capacityTotal_app (name : ResourceName) (nodes extra : NodeList) :
  (capacityTotal name (nodes ++ extra)
   == capacityTotal name nodes + capacityTotal name extra)%Q.
Proof. unfold capacityTotal. rewrite fmap_app. apply foldl_Qplus_app. Qed.

Lemma less_Qeq (q q' y : resource.Quantity) :
  (q == q')%Q → resource.less q y = resource.less q' y.
Proof.
  intros Heq. unfold resource.less, resource.Cmp.
  assert (Hcompare : (q ?= y)%Q = (q' ?= y)%Q).
  { by apply Qcompare_comp. }
  by rewrite Hcompare.
Qed.

Section Client.
Context {Cluster : Type}.
Variable List : Cluster → error + NodeList.

(** Two listings with the same capacity totals are classified alike. *)
Lemma EvaluateClusterSize_totals (k8sClient k8sClient' : Cluster)
    (nodes nodes' : NodeList) :
  List k8sClient = inr nodes → List k8sClient' = inr nodes' →
  (capacityTotal ResourceCPU nodes' == capacityTotal ResourceCPU nodes)%Q →
  (capacityTotal ResourceMemory nodes'
   == capacityTotal ResourceMemory nodes)%Q →
  EvaluateClusterSize List k8sClient' = EvaluateClusterSize List k8sClient.
Proof.
  intros HList HList' Hcpu Hmem.
  rewrite (EvaluateClusterSize_exact List k8sClient nodes HList).
  rewrite (EvaluateClusterSize_exact List k8sClient' nodes' HList').
  by rewrite (less_Qeq _ _ _ Hcpu), (less_Qeq _ _ _ Hmem).
Qed.

(** X1: On a successful listing the size is [Evaluation] exactly when the
    capacity total of cpu is below 5 or the capacity total of memory is
    below ten times 10^9 (10G, which is less than 10Gi), and [Production]
    exactly when neither is: a total equal to its threshold counts for
    production. *)
Theorem EvaluateClusterSize_decimal_thresholds (k8sClient : Cluster)
    (nodes : NodeList) :
  List k8sClient = inr nodes →
  (EvaluateClusterSize List k8sClient = (Evaluation, None)
   ↔ (capacityTotal ResourceCPU nodes < 5)%Q
     ∨ (capacityTotal ResourceMemory nodes < 10000000000)%Q)
  ∧ (EvaluateClusterSize List k8sClient = (Production, None)
     ↔ (5 <= capacityTotal ResourceCPU nodes)%Q
       ∧ (10000000000 <= capacityTotal ResourceMemory nodes)%Q).
Proof.
  intros HList.
  rewrite (EvaluateClusterSize_exact List k8sClient nodes HList).
  rewrite <- !less_lt, <- !less_ge.
  destruct (resource.less (capacityTotal ResourceCPU nodes) 5),
    (resource.less (capacityTotal ResourceMemory nodes) 10000000000);
    cbn; intuition congruence.
Qed.

(** X2: The size of a cluster does not depend on the order in which its nodes
    are listed. *)
Theorem EvaluateClusterSize_Permutation (k8sClient k8sClient' : Cluster)
    (nodes nodes' : NodeList) :
  List k8sClient = inr nodes → List k8sClient' = inr nodes' →
  nodes ≡ₚ nodes' →
  EvaluateClusterSize List k8sClient' = EvaluateClusterSize List k8sClient.
Proof.
  intros HList HList' Hperm.
  apply (EvaluateClusterSize_totals _ _ nodes nodes'); try done;
    symmetry; by apply capacityTotal_Permutation.
Qed.

(** X3: Only the cpu and memory entries of the capacity of a node are read: two
    listings whose nodes agree, one by one, on these two entries are
    classified alike, whatever their allocatable amounts, other capacity
    entries, system information and provider ids are. *)
Theorem EvaluateClusterSize_reads_capacity (k8sClient k8sClient' : Cluster)
    (nodes nodes' : NodeList) :
  List k8sClient = inr nodes → List k8sClient' = inr nodes' →
  Forall2 (λ n n',
             Capacity (Status n) !! ResourceCPU
             = Capacity (Status n') !! ResourceCPU
             ∧ Capacity (Status n) !! ResourceMemory
               = Capacity (Status n') !! ResourceMemory) nodes nodes' →
  EvaluateClusterSize List k8sClient' = EvaluateClusterSize List k8sClient.
Proof.
  intros HList HList' Hagree.
  assert (Htotal : ∀ name,
            name = ResourceCPU ∨ name = ResourceMemory →
            capacityTotal name nodes' = capacityTotal name nodes).
  { intros name Hname. unfold capacityTotal. f_equal. clear HList HList'.
    induction Hagree as [|n n' l l' [Hcpu Hmem] _ IH]; [done|].
    rewrite !fmap_cons. f_equal; [|exact IH]. unfold quantityOf.
    destruct Hname as [-> | ->]; [by rewrite Hcpu | by rewrite Hmem]. }
  apply (EvaluateClusterSize_totals _ _ nodes nodes'); try done.
  - rewrite (Htotal ResourceCPU); [reflexivity | by left].
  - rewrite (Htotal ResourceMemory); [reflexivity | by right].
Qed.

(** X4: A node whose capacity has neither a cpu nor a memory entry counts for
    nothing: adding such nodes to a listing, anywhere, does not change the
    size. *)
Theorem EvaluateClusterSize_missing_capacity (k8sClient k8sClient' : Cluster)
    (nodes extra nodes' : NodeList) :
  List k8sClient = inr nodes → List k8sClient' = inr nodes' →
  nodes' ≡ₚ nodes ++ extra →
  Forall (λ n, Capacity (Status n) !! ResourceCPU = None
               ∧ Capacity (Status n) !! ResourceMemory = None) extra →
  EvaluateClusterSize List k8sClient' = EvaluateClusterSize List k8sClient.
Proof.
  intros HList HList' Hperm Hextra.
  assert (Hzero : ∀ name,
            name = ResourceCPU ∨ name = ResourceMemory →
            (capacityTotal name extra == 0)%Q).
  { intros name Hname. unfold capacityTotal. clear Hperm.
    induction Hextra as [|n extra [Hcpu Hmem] _ IH]; [reflexivity|].
    cbn [fmap list_fmap foldl]. rewrite foldl_Qplus_acc, IH.
    unfold quantityOf. destruct Hname as [-> | ->];
      [rewrite Hcpu | rewrite Hmem]; cbn; unfold resource.zero; ring. }
  apply (EvaluateClusterSize_totals _ _ nodes nodes'); try done.
  - rewrite (capacityTotal_Permutation _ _ _ Hperm), capacityTotal_app.
    rewrite (Hzero ResourceCPU) by (by left). ring.
  - rewrite (capacityTotal_Permutation _ _ _ Hperm), capacityTotal_app.
    rewrite (Hzero ResourceMemory) by (by right). ring.
Qed.

(** X5: A production cluster stays one when nodes are added to it, provided the
    capacities of the added nodes are not negative. *)
Theorem EvaluateClusterSize_grows (k8sClient k8sClient' : Cluster)
    (nodes extra nodes' : NodeList) :
  List k8sClient = inr nodes → List k8sClient' = inr nodes' →
  nodes' ≡ₚ nodes ++ extra →
  Forall (λ n, (0 <= quantityOf ResourceCPU (Capacity (Status n)))%Q
               ∧ (0 <= quantityOf ResourceMemory (Capacity (Status n)))%Q)
    extra →
  EvaluateClusterSize List k8sClient = (Production, None) →
  EvaluateClusterSize List k8sClient' = (Production, None).
Proof.
  intros HList HList' Hperm Hextra.
  rewrite (EvaluateClusterSize_exact List k8sClient nodes HList).
  rewrite (EvaluateClusterSize_exact List k8sClient' nodes' HList').
  assert (Hmore : ∀ name,
            name = ResourceCPU ∨ name = ResourceMemory →
            (capacityTotal name nodes <= capacityTotal name nodes')%Q).
  { intros name Hname.
    rewrite (capacityTotal_Permutation _ _ _ Hperm), capacityTotal_app.
    assert (0 <= capacityTotal name extra)%Q; [|lra].
    apply foldl_Qplus_nonneg, Forall_fmap.
    eapply Forall_impl; [exact Hextra|].
    intros n [Hcpu Hmem]. cbn. by destruct Hname as [-> | ->]. }
  destruct (resource.less (capacityTotal ResourceCPU nodes) 5) eqn:Hcpu;
    [discriminate|].
  destruct (resource.less (capacityTotal ResourceMemory nodes) 10000000000)
    eqn:Hmem; [discriminate|].
  intros _. apply less_ge in Hcpu, Hmem.
  assert (Hcpu' : resource.less (capacityTotal ResourceCPU nodes') 5 = false).
  { apply less_ge. eapply Qle_trans; [exact Hcpu|]. apply Hmore. by left. }
  assert (Hmem' : resource.less (capacityTotal ResourceMemory nodes')
                    10000000000 = false).
  { apply less_ge. eapply Qle_trans; [exact Hmem|]. apply Hmore. by right. }
  by rewrite Hcpu', Hmem'.
Qed.

End Client.

Lemma EvaluateClusterSize_decimal_thresholds_witness :
  EvaluateClusterSize samples.List (samples.listed [samples.decimalNode])
  = (Production, None).
Proof.
  apply (EvaluateClusterSize_decimal_thresholds samples.List _
           [samples.decimalNode] eq_refl).
  split; vm_compute; discriminate.
Defined.

Lemma EvaluateClusterSize_Permutation_witness :
  EvaluateClusterSize samples.List
    (samples.listed [samples.reservedNode; samples.smallNode])
  = EvaluateClusterSize samples.List
      (samples.listed [samples.smallNode; samples.reservedNode]).
Proof.
  apply (EvaluateClusterSize_Permutation samples.List _ _
           [samples.smallNode; samples.reservedNode]
           [samples.reservedNode; samples.smallNode] eq_refl eq_refl).
  apply Permutation_swap.
Defined.

Lemma EvaluateClusterSize_reads_capacity_witness :
  EvaluateClusterSize samples.List
    (samples.listed
       [samples.mkNode "" "v1.27.3-gke.100" "Garden Linux 934.8"
          (samples.resources 6 (resource.Gi 12)) ∅])
  = EvaluateClusterSize samples.List (samples.listed [samples.reservedNode]).
Proof.
  apply (EvaluateClusterSize_reads_capacity samples.List _ _
           [samples.reservedNode]
           [samples.mkNode "" "v1.27.3-gke.100" "Garden Linux 934.8"
              (samples.resources 6 (resource.Gi 12)) ∅]
           eq_refl eq_refl).
  repeat constructor.
Defined.

Lemma EvaluateClusterSize_missing_capacity_witness :
  EvaluateClusterSize samples.List
    (samples.listed [samples.plainNode; samples.smallNode; samples.gkeNode])
  = EvaluateClusterSize samples.List (samples.listed [samples.smallNode]).
Proof.
  apply (EvaluateClusterSize_missing_capacity samples.List _ _
           [samples.smallNode] [samples.plainNode; samples.gkeNode]
           [samples.plainNode; samples.smallNode; samples.gkeNode]
           eq_refl eq_refl).
  - apply Permutation_swap.
  - repeat constructor.
Defined.

Lemma EvaluateClusterSize_grows_witness :
  EvaluateClusterSize samples.List
    (samples.listed [samples.smallNode; samples.reservedNode])
  = (Production, None).
Proof.
  apply (EvaluateClusterSize_grows samples.List
           (samples.listed [samples.reservedNode]) _
           [samples.reservedNode] [samples.smallNode]
           [samples.smallNode; samples.reservedNode] eq_refl eq_refl).
  - apply Permutation_swap.
  - repeat constructor; vm_compute; discriminate.
  - vm_compute. reflexivity.
Defined.

End clusterconfig_size.

Module clusterconfig_discovery.
Import corev1 clusterconfig reference clusterconfig_properties.

Lemma HasPrefix_append (s prefix : string) :
  HasPrefix s prefix = true ↔ ∃ rest, s = prefix +:+ rest.
Proof.
  unfold HasPrefix. revert s.
  induction prefix as [|c prefix IH]; intros s.
  - assert (Hempty : String.prefix "" s = true) by (by destruct s).
    rewrite Hempty. split; [|done]. intros _. exists s. reflexivity.
  - destruct s as [|c' s].
    { change (String.prefix (String c prefix) "") with false.
      split; [done|]. intros [rest Hrest]. discriminate Hrest. }
    change (String.prefix (String c prefix) (String c' s))
      with (if ascii_dec c c' then String.prefix prefix s else false).
    destruct (ascii_dec c c') as [->|Hne].
    + rewrite IH. split.
      * intros [rest ->]. exists rest. reflexivity.
      * intros [rest Hrest]. exists rest.
        change (String c' prefix +:+ rest) with (String c' (prefix +:+ rest))
          in Hrest.
        by injection Hrest.
    + split; [done|]. intros [rest Hrest].
      change (String c prefix +:+ rest) with (String c (prefix +:+ rest))
        in Hrest.
      injection Hrest as Hc _. by destruct Hne.
Qed.

Lemma flavourOf_not_Unknown (node : Node) : flavourOf node ≠ Some Unknown.
Proof.
  unfold flavourOf, matchNode.
  by repeat match goal with |- context [if ?b then _ else _] => destruct b end.
Qed.

Lemma firstMatch_Unknown (nodes : NodeList) :
  firstMatch nodes = Unknown ↔ Forall (λ n, flavourOf n = None) nodes.
Proof.
  unfold firstMatch. induction nodes as [|node nodes IH].
  - split; [constructor | done].
  - cbn [omap list_omap]. pose proof (flavourOf_not_Unknown node) as Hnode.
    destruct (flavourOf node) as [flavour|] eqn:Hflavour.
    + cbn. split.
      * intros ->. by destruct Hnode.
      * inversion 1; congruence.
    + rewrite IH. split; [by constructor | by inversion 1].
Qed.

Section Client.
Context {Cluster : Type}.
Variable List : Cluster → error + NodeList.

(** X6: On a listing that is not empty [GetClusterProvider] looks at the first
    node alone: the provider is aws exactly when the provider id of that
    node is [aws://] followed by anything, and other otherwise. *)
Theorem GetClusterProvider_first_node (k8sclient : Cluster) (n : Node)
    (rest : NodeList) :
  List k8sclient = inr (n :: rest) →
  (GetClusterProvider List k8sclient = ("aws", None)
   ↔ ∃ id, ProviderID (Spec n) = "aws://" +:+ id)
  ∧ (GetClusterProvider List k8sclient = ("other", None)
     ↔ ¬ ∃ id, ProviderID (Spec n) = "aws://" +:+ id).
Proof.
  intros HList. unfold GetClusterProvider. rewrite HList.
  rewrite <- HasPrefix_append.
  destruct (HasPrefix (ProviderID (Spec n)) "aws://");
    split; split; try done; try discriminate.
Qed.

(** X7: [GetClusterProvider] returns an error exactly when the listing of the
    nodes does, the same one, with an empty provider. *)
Theorem GetClusterProvider_error (k8sclient : Cluster) (err : error) :
  ((GetClusterProvider List k8sclient).2 = Some err
   ↔ List k8sclient = inl err)
  ∧ (List k8sclient = inl err →
     GetClusterProvider List k8sclient = ("", Some err)).
Proof.
  unfold GetClusterProvider.
  destruct (List k8sclient) as [err'|[|n nodes]].
  - split; [split|]; cbn; by intros [= ->].
  - split; [split|]; cbn; discriminate.
  - destruct (HasPrefix _ _); split; try split; cbn; discriminate.
Qed.

Lemma DiscoverClusterFlavour_failed (k8sClient : Cluster) (err : error) :
  List k8sClient = inl err →
  DiscoverClusterFlavour List k8sClient = (Unknown, Some err).
Proof.
  intros HList. unfold DiscoverClusterFlavour.
  destruct Compile_patterns as (-> & -> & ->). by rewrite HList.
Qed.

(** X8: [DiscoverClusterFlavour] returns an error exactly when the listing of
    the nodes does, the same one, with the flavour [Unknown]: the three
    patterns compile, so none of the three returns for a pattern that does
    not compile is ever taken. *)
Theorem DiscoverClusterFlavour_error (k8sClient : Cluster) (err : error) :
  ((DiscoverClusterFlavour List k8sClient).2 = Some err
   ↔ List k8sClient = inl err)
  ∧ (List k8sClient = inl err →
     DiscoverClusterFlavour List k8sClient = (Unknown, Some err)).
Proof.
  split; [|apply DiscoverClusterFlavour_failed].
  destruct (List k8sClient) as [err'|nodes] eqn:HList.
  - rewrite (DiscoverClusterFlavour_failed _ _ HList). cbn.
    split; by intros [= ->].
  - rewrite (DiscoverClusterFlavour_listed List _ _ HList). by cbn.
Qed.

(** X9: On a successful listing the flavour is [Unknown] exactly when no node
    matches any of the three patterns. *)
Theorem DiscoverClusterFlavour_Unknown (k8sClient : Cluster)
    (nodes : NodeList) :
  List k8sClient = inr nodes →
  DiscoverClusterFlavour List k8sClient = (Unknown, None)
  ↔ Forall (λ n, flavourOf n = None) nodes.
Proof.
  intros HList. rewrite (DiscoverClusterFlavour_listed List _ _ HList).
  rewrite <- firstMatch_Unknown. split; [by intros [= ->] | by intros ->].
Qed.

(** X10: The nodes that match no pattern have no influence on the flavour:
    leaving them out of the listing gives the same flavour. *)
Theorem DiscoverClusterFlavour_filter (k8sClient k8sClient' : Cluster)
    (nodes : list Node) :
  List k8sClient = inr nodes →
  List k8sClient' = inr (filter (λ n, is_Some (flavourOf n)) nodes) →
  DiscoverClusterFlavour List k8sClient'
  = DiscoverClusterFlavour List k8sClient.
Proof.
  intros HList HList'.
  rewrite (DiscoverClusterFlavour_listed List _ _ HList).
  rewrite (DiscoverClusterFlavour_listed List _ _ HList').
  unfold firstMatch. do 3 f_equal. clear HList HList'.
  induction nodes as [|node nodes IH]; [done|].
  rewrite filter_cons. cbn [omap list_omap].
  destruct (flavourOf node) as [flavour|] eqn:Hflavour.
  - rewrite decide_True by done. cbn [omap list_omap].
    by rewrite Hflavour, IH.
  - rewrite decide_False by (by intros []). exact IH.
Qed.

(** X11: Once a node has matched, the nodes listed after it are not looked at:
    a listing that classifies to a known flavour keeps it whatever nodes
    are appended. *)
Theorem DiscoverClusterFlavour_app (k8sClient k8sClient' : Cluster)
    (nodes more : NodeList) :
  List k8sClient = inr nodes →
  List k8sClient' = inr (nodes ++ more) →
  (DiscoverClusterFlavour List k8sClient).1 ≠ Unknown →
  DiscoverClusterFlavour List k8sClient'
  = DiscoverClusterFlavour List k8sClient.
Proof.
  intros HList HList'.
  rewrite (DiscoverClusterFlavour_listed List _ _ HList).
  rewrite (DiscoverClusterFlavour_listed List _ _ HList').
  cbn [fst]. intros Hknown. f_equal. unfold firstMatch in *.
  rewrite omap_app.
  destruct (omap flavourOf nodes) as [|flavour flavours]; [by destruct Hknown|].
  reflexivity.
Qed.

(** X17: [EvaluateClusterConfiguration] returns an error exactly when the
    listing of the nodes does, with an empty configuration; otherwise it
    returns the configuration of the flavour of the first node that matches
    a pattern, which is empty unless that flavour is k3d or GKE. *)
Theorem EvaluateClusterConfiguration_listed (k8sClient : Cluster) :
  (∀ err, (EvaluateClusterConfiguration List k8sClient).2 = Some err
          ↔ List k8sClient = inl err)
  ∧ (∀ err, List k8sClient = inl err →
            EvaluateClusterConfiguration List k8sClient = (∅, Some err))
  ∧ (∀ nodes, List k8sClient = inr nodes →
       EvaluateClusterConfiguration List k8sClient
       = ((clusterConfiguration (firstMatch nodes)).1, None)
       ∧ (firstMatch nodes ≠ k3d → firstMatch nodes ≠ GKE →
          EvaluateClusterConfiguration List k8sClient = (∅, None))).
Proof.
  unfold EvaluateClusterConfiguration.
  destruct (List k8sClient) as [err'|nodes] eqn:HList.
  - rewrite (DiscoverClusterFlavour_failed _ _ HList).
    split; [|split].
    + intros err. cbn. split; by intros [= ->].
    + by intros err [= ->].
    + by intros nodes [=].
  - rewrite (DiscoverClusterFlavour_listed List _ _ HList).
    split; [|split].
    + intros err. by destruct (firstMatch nodes).
    + by intros err [=].
    + intros nodes' [= <-]. by destruct (firstMatch nodes).
Qed.

End Client.

Lemma GetClusterProvider_first_node_witness :
  GetClusterProvider samples.List
    (samples.listed [samples.smallNode; samples.gardenNode])
  = ("aws", None).
Proof.
  apply (GetClusterProvider_first_node samples.List _ samples.smallNode
           [samples.gardenNode] eq_refl).
  by exists "/eu-west-1a/i-0a1b2c".
Defined.

Lemma DiscoverClusterFlavour_Unknown_witness :
  DiscoverClusterFlavour samples.List
    (samples.listed [samples.plainNode; samples.smallNode])
  = (Unknown, None).
Proof.
  apply (DiscoverClusterFlavour_Unknown samples.List _
           [samples.plainNode; samples.smallNode] eq_refl).
  repeat constructor.
Defined.

Lemma DiscoverClusterFlavour_filter_witness :
  DiscoverClusterFlavour samples.List (samples.listed [samples.k3sNode])
  = DiscoverClusterFlavour samples.List
      (samples.listed [samples.plainNode; samples.k3sNode; samples.smallNode]).
Proof.
  exact (DiscoverClusterFlavour_filter samples.List
           (samples.listed
              [samples.plainNode; samples.k3sNode; samples.smallNode])
           (samples.listed [samples.k3sNode])
           [samples.plainNode; samples.k3sNode; samples.smallNode]
           eq_refl eq_refl).
Defined.

Lemma DiscoverClusterFlavour_app_witness :
  DiscoverClusterFlavour samples.List
    (samples.listed [samples.gardenNode; samples.gkeNode])
  = DiscoverClusterFlavour samples.List (samples.listed [samples.gardenNode]).
Proof.
  apply (DiscoverClusterFlavour_app samples.List
           (samples.listed [samples.gardenNode])
           (samples.listed [samples.gardenNode; samples.gkeNode])
           [samples.gardenNode] [samples.gkeNode] eq_refl eq_refl).
  discriminate.
Defined.

End clusterconfig_discovery.

(** * Further properties of package istioresources *)

Module istioresources_reconcile.
Import describederrors istioresources istioresources_properties.

Section Reconciler.
Context {Cluster : Type}.
Variable List : Cluster → error + corev1.NodeList.
Variable ShouldUseNLB : Cluster → bool * option error.
Variable NewPeerAuthenticationMtls : Resource (Cluster := Cluster).
Variable NewProxyProtocolEnvoyFilter : bool → Resource (Cluster := Cluster).

(** X18: Reconciling one list of resources after another is reconciling their
    concatenation: the second list is reconciled, from where the first one
    ends, exactly when the first one returns no error. *)
Theorem reconcileResources_app
    (front back : list (Resource (Cluster := Cluster)))
    (owner : OwnerReference) (templateValues : gmap string string)
    (w : World) :
  reconcileResources (front ++ back) owner templateValues w =
  match reconcileResources front owner templateValues w with
  | (Some e, w1) => (Some e, w1)
  | (None, w1) => reconcileResources back owner templateValues w1
  end.
Proof.
  revert w. induction front as [|resource front IH]; intros w; [done|].
  cbn [app reconcileResources]. unfold bind, log, call, ret.
  cbn [cluster logs].
  destruct (reconcile resource owner templateValues (cluster w))
    as [[result [e|]] c]; [done|].
  apply IH.
Qed.

(** The loop returns no error exactly when every step succeeds in turn. *)
Lemma reconcileResources_applyAll
    (resources : list (Resource (Cluster := Cluster)))
    (owner : OwnerReference) (templateValues : gmap string string)
    (w : World) :
  match applyAll resources owner templateValues (cluster w) with
  | Some c =>
      ∃ w', reconcileResources resources owner templateValues w = (None, w')
            ∧ cluster w' = c
            ∧ attempted (logs w')
              = attempted (logs w) ++ (Name <$> resources)
  | None =>
      ∃ e w', reconcileResources resources owner templateValues w
              = (Some e, w')
  end.
Proof.
  revert w. induction resources as [|resource resources IH]; intros w.
  - cbn. exists w. by rewrite app_nil_r.
  - cbn [applyAll reconcileResources]. unfold bind, log, call, ret.
    cbn [cluster logs].
    destruct (reconcile resource owner templateValues (cluster w))
      as [[result [e|]] c1]; [by eauto|].
    match goal with
    | |- context [reconcileResources resources owner templateValues ?w1] =>
        specialize (IH w1)
    end.
    cbn [cluster logs] in IH.
    destruct (applyAll resources owner templateValues c1) as [c|]; [|done].
    destruct IH as (w' & Hrun & Hcluster & Hlog).
    exists w'. split; [done|]. split; [done|].
    rewrite Hlog, !attempted_app. cbn. by rewrite <- !app_assoc.
Qed.

(** X19: [Reconcile] returns nil exactly when the provider is determined, the
    resources are initialised and the reconcile step of every resource
    succeeds in turn. *)
Theorem Reconcile_nil_iff (r : ResourcesReconciler) (istioCR : Istio)
    (w : World) :
  (Reconcile List ShouldUseNLB NewPeerAuthenticationMtls
     NewProxyProtocolEnvoyFilter r istioCR w).1 = None
  ↔ ∃ provider resources,
      clusterconfig.GetClusterProvider List (cluster w) = (provider, None)
      ∧ getResources ShouldUseNLB NewPeerAuthenticationMtls
          NewProxyProtocolEnvoyFilter (cluster w) provider
        = (resources, None)
      ∧ is_Some (applyAll resources (ownerOf istioCR) (templateValues r)
                   (cluster w)).
Proof.
  unfold Reconcile, bind, log, query, ret. cbn [cluster logs].
  destruct (clusterconfig.GetClusterProvider List (cluster w))
    as [provider [err|]] eqn:Hprovider.
  { cbn. split; [done|]. by intros (? & ? & [=] & _). }
  cbn [cluster logs].
  destruct (getResources _ _ _ (cluster w) provider)
    as [resources [err|]] eqn:Hresources.
  { cbn. split; [done|]. intros (? & ? & [= <-] & Hres & _). congruence. }
  match goal with
  | |- context [reconcileResources resources ?o ?tv ?w0] =>
      pose proof (reconcileResources_applyAll resources o tv w0) as Hloop
  end.
  cbn [cluster logs] in Hloop.
  destruct (applyAll resources (ownerOf istioCR) (templateValues r)
              (cluster w)) as [c|] eqn:Happly.
  - destruct Hloop as (w' & -> & _). cbn. split; [|done].
    intros _. exists provider, resources. by rewrite Happly.
  - destruct Hloop as (e & w' & ->). cbn. split; [done|].
    intros (? & ? & [= <-] & Hres & Hsome).
    rewrite Hresources in Hres. injection Hres as <-.
    rewrite Happly in Hsome. by destruct Hsome.
Qed.

(** X20: When every step succeeds, [Reconcile] leaves the cluster that the steps
    of the resources leave, run in the order of [getResources]; it has
    started every resource, and the line it logged last is the one of
    success. *)
Theorem Reconcile_succeeds (r : ResourcesReconciler) (istioCR : Istio)
    (w : World) (provider : string) (resources : list Resource)
    (c : Cluster) :
  clusterconfig.GetClusterProvider List (cluster w) = (provider, None) →
  getResources ShouldUseNLB NewPeerAuthenticationMtls
    NewProxyProtocolEnvoyFilter (cluster w) provider = (resources, None) →
  applyAll resources (ownerOf istioCR) (templateValues r) (cluster w)
  = Some c →
  ∃ w',
    Reconcile List ShouldUseNLB NewPeerAuthenticationMtls
      NewProxyProtocolEnvoyFilter r istioCR w = (None, w')
    ∧ cluster w' = c
    ∧ attempted (logs w') = attempted (logs w) ++ (Name <$> resources)
    ∧ last (logs w') = Some (Info "Successfully reconciled Istio resources" []).
Proof.
  intros Hprovider Hresources Happly.
  unfold Reconcile, bind, log, query, ret. cbn [cluster logs].
  rewrite Hprovider. cbn [cluster logs]. rewrite Hresources.
  match goal with
  | |- context [reconcileResources resources ?o ?tv ?w0] =>
      pose proof (reconcileResources_applyAll resources o tv w0) as Hloop
  end.
  cbn [cluster logs] in Hloop. rewrite Happly in Hloop.
  destruct Hloop as (w' & -> & Hcluster & Hlog).
  eexists. split; [reflexivity|]. cbn [cluster logs].
  split; [done|]. split.
  - rewrite attempted_app, Hlog, attempted_app. cbn.
    by rewrite !app_nil_r.
  - apply last_snoc.
Qed.

(** X21: When [Reconcile] fails before its loop, because the nodes cannot be
    listed or because, on aws, the question about the load balancer is
    answered by an error, it returns that error described, leaves the
    cluster as it was and starts no resource. *)
Theorem Reconcile_fails_before_loop (r : ResourcesReconciler)
    (istioCR : Istio) (w : World) :
  (∀ err,
     List (cluster w) = inl err →
     Reconcile List ShouldUseNLB NewPeerAuthenticationMtls
       NewProxyProtocolEnvoyFilter r istioCR w
     = (Some (NewDescribedError err "could not determine cluster provider"),
        {| cluster := cluster w;
           logs := logs w ++ [Info "Reconciling Istio resources" []] |}))
  ∧ (∀ shouldUseNLB err,
       clusterconfig.GetClusterProvider List (cluster w)
       = (clusterconfig.Aws, None) →
       ShouldUseNLB (cluster w) = (shouldUseNLB, Some err) →
       Reconcile List ShouldUseNLB NewPeerAuthenticationMtls
         NewProxyProtocolEnvoyFilter r istioCR w
       = (Some (NewDescribedError err
                  "Istio controller failed to initialise Istio resources"),
          {| cluster := cluster w;
             logs := (logs w ++ [Info "Reconciling Istio resources" []])
                     ++ [Error err "Failed to initialise Istio resources"]
          |})).
Proof.
  split.
  - intros err HList.
    unfold Reconcile, bind, log, query, ret,
      clusterconfig.GetClusterProvider.
    cbn [cluster logs]. by rewrite HList.
  - intros shouldUseNLB err Hprovider HNLB.
    unfold Reconcile, bind, log, query, ret. cbn [cluster logs].
    rewrite Hprovider. cbn [cluster logs].
    unfold getResources.
    change (String.eqb clusterconfig.Aws clusterconfig.Aws) with true.
    by rewrite HNLB.
Qed.

(** X22: On a cluster whose provider is other (its first node is not an aws
    node, or it has no node at all) [Reconcile] starts the peer
    authentication and nothing else; the load-balancer question is not asked
    and the proxy-protocol filter is not built: neither has any influence on
    the result. *)
Theorem Reconcile_other_provider (r : ResourcesReconciler) (istioCR : Istio)
    (w : World)
    (ShouldUseNLB' : Cluster → bool * option error)
    (NewProxyProtocolEnvoyFilter' : bool → Resource (Cluster := Cluster)) :
  clusterconfig.GetClusterProvider List (cluster w) = ("other", None) →
  Reconcile List ShouldUseNLB NewPeerAuthenticationMtls
    NewProxyProtocolEnvoyFilter r istioCR w
  = Reconcile List ShouldUseNLB' NewPeerAuthenticationMtls
      NewProxyProtocolEnvoyFilter' r istioCR w
  ∧ attempted (logs (Reconcile List ShouldUseNLB NewPeerAuthenticationMtls
                       NewProxyProtocolEnvoyFilter r istioCR w).2)
    = attempted (logs w) ++ [Name NewPeerAuthenticationMtls]
  ∧ cluster (Reconcile List ShouldUseNLB NewPeerAuthenticationMtls
               NewProxyProtocolEnvoyFilter r istioCR w).2
    = (reconcile NewPeerAuthenticationMtls (ownerOf istioCR)
         (templateValues r) (cluster w)).2.
Proof.
  intros Hprovider.
  unfold Reconcile, bind, log, query, ret. cbn [cluster logs].
  rewrite Hprovider. cbn [cluster logs].
  unfold getResources.
  change (String.eqb "other" clusterconfig.Aws) with false.
  change (String.eqb "other" clusterconfig.Openstack) with false.
  cbn [reconcileResources]. unfold bind, log, call, ret. cbn [cluster logs].
  destruct (reconcile NewPeerAuthenticationMtls (ownerOf istioCR)
              (templateValues r) (cluster w)) as [[result [e|]] c].
  - split; [done|]. split; [|done]. cbn [snd logs].
    rewrite !attempted_app. cbn. by rewrite app_nil_r.
  - split; [done|]. split; [|done]. cbn [snd logs].
    rewrite !attempted_app. cbn. by rewrite !app_nil_r.
Qed.

End Reconciler.

Lemma Reconcile_succeeds_witness :
  ∃ w',
    Reconcile reconciler_samples.nodes reconciler_samples.nlb
      (reconciler_samples.applies "peer-authentication")
      (λ _, reconciler_samples.applies "proxy-protocol")
      NewReconciler reconciler_samples.istioCR
      (reconciler_samples.start reconciler_samples.awsCluster) = (None, w')
    ∧ reconciler_samples.applied (cluster w')
      = ["peer-authentication"; "proxy-protocol"].
Proof.
  destruct (Reconcile_succeeds
              reconciler_samples.nodes reconciler_samples.nlb
              (reconciler_samples.applies "peer-authentication")
              (λ _, reconciler_samples.applies "proxy-protocol")
              NewReconciler reconciler_samples.istioCR
              (reconciler_samples.start reconciler_samples.awsCluster)
              "aws" _ _ eq_refl eq_refl eq_refl)
    as (w' & Hrun & Hcluster & _).
  exists w'. split; [exact Hrun|]. rewrite Hcluster. reflexivity.
Defined.

Lemma Reconcile_fails_before_loop_witness :
  Reconcile reconciler_samples.nodes reconciler_samples.nlb
    (reconciler_samples.applies "peer-authentication")
    (λ _, reconciler_samples.applies "proxy-protocol")
    NewReconciler reconciler_samples.istioCR
    (reconciler_samples.start reconciler_cases.unreachableCluster)
  = (Some (NewDescribedError (errorString "connection refused")
             "could not determine cluster provider"),
     {| cluster := reconciler_cases.unreachableCluster;
        logs := [Info "Reconciling Istio resources" []] |})
  ∧ Reconcile reconciler_samples.nodes reconciler_samples.nlb
      (reconciler_samples.applies "peer-authentication")
      (λ _, reconciler_samples.applies "proxy-protocol")
      NewReconciler reconciler_samples.istioCR
      (reconciler_samples.start reconciler_samples.awsClusterNoAnswer)
    = (Some (NewDescribedError (errorString "configmaps is forbidden")
               "Istio controller failed to initialise Istio resources"),
       {| cluster := reconciler_samples.awsClusterNoAnswer;
          logs := [Info "Reconciling Istio resources" [];
                   Error (errorString "configmaps is forbidden")
                     "Failed to initialise Istio resources"] |}).
Proof.
  split.
  - exact (proj1 (Reconcile_fails_before_loop
                    reconciler_samples.nodes reconciler_samples.nlb
                    (reconciler_samples.applies "peer-authentication")
                    (λ _, reconciler_samples.applies "proxy-protocol")
                    NewReconciler reconciler_samples.istioCR
                    (reconciler_samples.start
                       reconciler_cases.unreachableCluster))
             (errorString "connection refused") eq_refl).
  - exact (proj2 (Reconcile_fails_before_loop
                    reconciler_samples.nodes reconciler_samples.nlb
                    (reconciler_samples.applies "peer-authentication")
                    (λ _, reconciler_samples.applies "proxy-protocol")
                    NewReconciler reconciler_samples.istioCR
                    (reconciler_samples.start
                       reconciler_samples.awsClusterNoAnswer))
             false (errorString "configmaps is forbidden") eq_refl eq_refl).
Defined.

Lemma Reconcile_other_provider_witness :
  attempted
    (logs (Reconcile reconciler_samples.nodes reconciler_samples.nlb
             (reconciler_samples.applies "peer-authentication")
             (λ _, reconciler_samples.refused "proxy-protocol")
             NewReconciler reconciler_samples.istioCR
             (reconciler_samples.start reconciler_cases.emptyCluster)).2)
  = ["peer-authentication"].
Proof.
  exact (proj1 (proj2 (Reconcile_other_provider
                         reconciler_samples.nodes reconciler_samples.nlb
                         (reconciler_samples.applies "peer-authentication")
                         (λ _, reconciler_samples.refused "proxy-protocol")
                         NewReconciler reconciler_samples.istioCR
                         (reconciler_samples.start
                            reconciler_cases.emptyCluster)
                         reconciler_samples.nlb
                         (λ _, reconciler_samples.refused "proxy-protocol")
                         eq_refl))).
Defined.

End istioresources_reconcile.
